(** * Tic-tac-toe game engine of [bjkl_frontend/src/App.js]

    A shallow embedding of the state logic of the [TicTacToeGame] React
    component: the winner calculation, the values derived on each render
    (current squares, winner object, draw flag), the three event handlers
    ([handleClick], [resetGame], [jumpTo]), the [useEffect] hook on
    [stepNumber] and the [GameStatus] projection.

    JavaScript data is modelled as the code has it: squares hold [null],
    ["X"] or ["O"]; a board is a JavaScript array (indexed elements plus
    the properties a write at a non-index key creates); reading a property
    of [undefined] throws a [TypeError], which is the only fault the code
    can raise. *)

From stdpp Require Import base list gmap strings pretty.

Local Open Scope Z_scope.

(** ** JavaScript values and completions *)

(** The values that occur in a square: [null], [undefined] (what a read
    of a missing property gives) and strings. *)
Inductive jsval :=
  | JNull
  | JUndefined
  | JStr (s : string).

#[global] Instance jsval_eq_dec : EqDecision jsval.
Proof. solve_decision. Defined.

(** JavaScript truthiness: [null], [undefined] and the empty string are
    falsy, every other string is truthy. *)
Definition truthy (v : jsval) : bool :=
  match v with
  | JNull | JUndefined => false
  | JStr s => negb (bool_decide (s = EmptyString))
  end.

(** Strict equality [===] on these values. *)
Definition strict_eq (v w : jsval) : bool := bool_decide (v = w).

(** The text React renders for a value placed in JSX: a string is
    rendered as it is, [null] and [undefined] render nothing. *)
Definition jsx_text (v : jsval) : string :=
  match v with
  | JStr s => s
  | JNull | JUndefined => EmptyString
  end.

(** A computation either completes normally or throws a [TypeError]. *)
Inductive completion (A : Type) :=
  | Normal (a : A)
  | TypeError.
Arguments Normal {A} a.
Arguments TypeError {A}.

Definition cbind {A B} (c : completion A) (k : A → completion B) : completion B :=
  match c with
  | Normal a => k a
  | TypeError => TypeError
  end.

Notation "x ←! c ; k" := (cbind c (λ x, k))
  (at level 20, c at level 100, k at level 200, right associativity, only parsing).

Definition completes {A} (c : completion A) : Prop := ∃ a, c = Normal a.

(** ** JavaScript arrays *)

(** An array: its indexed elements [0 .. length-1] and the properties
    stored under keys that are not array indices.  A hole is represented
    by [JUndefined]: the program only reads elements, copies them with
    [slice] and tests them with [square !== null], and none of these
    distinguishes a hole from a stored [undefined]. *)
Record jsarray := JsArray {
  elems : list jsval;
  props : gmap Z jsval
}.

#[global] Instance jsarray_eq_dec : EqDecision jsarray.
Proof. solve_decision. Defined.

(** An integer key is an array index when it lies in [0, 2^32 - 2]. *)
Definition is_array_index (i : Z) : bool :=
  (0 <=? i) && (i <? 2 ^ 32 - 1).

(** [a[i]] for an array [a]. *)
Definition arr_get (a : jsarray) (i : Z) : jsval :=
  if is_array_index i
  then default JUndefined (elems a !! Z.to_nat i)
  else default JUndefined (props a !! i).

(** [a[i] = v]: inside the array the element is replaced; past its end
    the array grows (the skipped positions are holes); at a key that is
    not an array index an ordinary property is set. *)
Definition arr_set (a : jsarray) (i : Z) (v : jsval) : jsarray :=
  if is_array_index i then
    let n := Z.to_nat i in
    if bool_decide (n < length (elems a))%nat
    then JsArray (<[n := v]> (elems a)) (props a)
    else JsArray (elems a ++ replicate (n - length (elems a)) JUndefined ++ [v])
                 (props a)
  else JsArray (elems a) (<[i := v]> (props a)).

(** [a.slice()]: a new array with the same elements; properties that are
    not elements are not copied. *)
Definition arr_slice (a : jsarray) : jsarray := JsArray (elems a) ∅.

(** [Array(9).fill(null)]. *)
Definition emptyBoard : jsarray := JsArray (replicate 9 JNull) ∅.

(** [h[n]] for the history array [h] (an array of boards without extra
    properties): [None] stands for [undefined]. *)
Definition js_index {A} (h : list A) (n : Z) : option A :=
  if 0 <=? n then h !! Z.to_nat n else None.

(** [h.slice(0, e)]: a negative end counts from the end of the array, and
    the end is clamped to the array. *)
Definition js_slice0 {A} (h : list A) (e : Z) : list A :=
  let len := Z.of_nat (length h) in
  let k := if e <? 0 then Z.max (len + e) 0 else Z.min e len in
  take (Z.to_nat k) h.

(** [o[i]] where [o] may be [undefined]: reading a property of
    [undefined] throws. *)
Definition get_prop (o : option jsarray) (i : Z) : completion jsval :=
  match o with
  | Some a => Normal (arr_get a i)
  | None => TypeError
  end.

(** [o.slice()] where [o] may be [undefined]. *)
Definition call_slice (o : option jsarray) : completion jsarray :=
  match o with
  | Some a => Normal (arr_slice a)
  | None => TypeError
  end.

(** [a.every(square => square !== null)] for an array [a]. *)
Definition arr_every_not_null (a : jsarray) : bool :=
  forallb (λ square, negb (strict_eq square JNull)) (elems a).

(** [o.every(square => square !== null)] where [o] may be [undefined]. *)
Definition every_not_null (o : option jsarray) : completion bool :=
  match o with
  | Some a => Normal (arr_every_not_null a)
  | None => TypeError
  end.

(** ** Winner calculation *)

Definition line : Type := Z * Z * Z.

Definition lines : list line :=
  [ (0, 1, 2); (3, 4, 5); (6, 7, 8);   (* rows *)
    (0, 3, 6); (1, 4, 7); (2, 5, 8);   (* cols *)
    (0, 4, 8); (2, 4, 6) ].            (* diags *)

(** The object [{ winner, line }] returned on a win. *)
Record WinnerObj := mkWinnerObj {
  winner : jsval;
  win_line : line
}.

#[global] Instance WinnerObj_eq_dec : EqDecision WinnerObj.
Proof. solve_decision. Defined.

(** The test of the [if] inside the loop of [calculateWinner]. *)
Definition line_wins (squares : jsarray) (l : line) : bool :=
  let '(a, b, c) := l in
  truthy (arr_get squares a)
  && strict_eq (arr_get squares a) (arr_get squares b)
  && strict_eq (arr_get squares a) (arr_get squares c).

(** The [for (let line of lines)] loop: the first line that passes the
    test is returned, [None] is the final [return null]. *)
Fixpoint calculateWinner_loop (squares : jsarray) (ls : list line) : option WinnerObj :=
  match ls with
  | [] => None
  | l :: rest =>
      let '(a, _, _) := l in
      if line_wins squares l
      then Some (mkWinnerObj (arr_get squares a) l)
      else calculateWinner_loop squares rest
  end.

(** [calculateWinner(squares)]; with [squares] undefined the first
    iteration reads [squares[a]] and throws. *)
Definition calculateWinner (squares : option jsarray) : completion (option WinnerObj) :=
  match squares with
  | Some sq => Normal (calculateWinner_loop sq lines)
  | None => TypeError
  end.

(** ** The game component *)

(** The three [useState] cells of [TicTacToeGame]. *)
Record State := mkState {
  history : list jsarray;
  stepNumber : Z;
  xIsNext : bool
}.

#[global] Instance State_eq_dec : EqDecision State.
Proof. solve_decision. Defined.

(** The initial values passed to [useState]. *)
Definition initialState : State := mkState [emptyBoard] 0 true.

(** The values computed in the body of the component on every render. *)
Record View := mkView {
  currentSquares : option jsarray;
  winnerObj : option WinnerObj;
  draw : bool
}.

(** [!winnerObj && currentSquares.every(square => square !== null)];
    [&&] does not evaluate its right operand when the left one is false. *)
Definition compute_draw (winnerObj : option WinnerObj)
    (currentSquares : option jsarray) : completion bool :=
  match winnerObj with
  | Some _ => Normal false
  | None => every_not_null currentSquares
  end.

(** The body of the component up to the handlers: it throws when
    [history[stepNumber]] is undefined. *)
Definition render (s : State) : completion View :=
  let currentSquares := js_index (history s) (stepNumber s) in
  winnerObj ←! calculateWinner currentSquares;
  draw ←! compute_draw winnerObj currentSquares;
  Normal (mkView currentSquares winnerObj draw).

(** [handleClick(i)], a closure over the state and the values of the
    render that created it. *)
Definition handleClick (s : State) (v : View) (i : Z) : completion State :=
  let historyUpToStep := js_slice0 (history s) (stepNumber s + 1) in
  let current := js_index historyUpToStep (Z.of_nat (length historyUpToStep) - 1) in
  match winnerObj v with
  | Some _ => Normal s
  | None =>
      occupied ←! get_prop current i;
      if truthy occupied then Normal s
      else
        squares ←! call_slice current;
        let squares := arr_set squares i (JStr (if xIsNext s then "X" else "O")) in
        Normal (mkState (historyUpToStep ++ [squares])
                        (Z.of_nat (length historyUpToStep))
                        (negb (xIsNext s)))
  end.

(** [resetGame()]. *)
Definition resetGame (s : State) : State :=
  mkState [emptyBoard] 0 true.

(** [jumpTo(move)]; [%] is the JavaScript remainder, whose sign follows
    the dividend. *)
Definition jumpTo (s : State) (move : Z) : State :=
  mkState (history s) move (Z.rem move 2 =? 0).

(** The [useEffect] hook with dependency [stepNumber]: after a render
    that committed with a changed [stepNumber], it sets [xIsNext] when
    [stepNumber] is 0. *)
Definition stepNumber_effect (prev s : State) : State :=
  match render s with
  | Normal _ =>
      if negb (stepNumber s =? stepNumber prev) && (stepNumber s =? 0)
      then mkState (history s) (stepNumber s) true
      else s
  | TypeError => s
  end.

(** The intents the user interface forwards to the handlers. *)
Inductive Event :=
  | Click (i : Z)
  | Reset
  | Jump (move : Z).

(** Running the handler of an event.  The handlers are closures created
    by a render, so there is none to call when the render threw. *)
Definition handle (s : State) (ev : Event) : completion State :=
  v ←! render s;
  match ev with
  | Click i => handleClick s v i
  | Reset => Normal (resetGame s)
  | Jump move => Normal (jumpTo s move)
  end.

(** One event: the handler, then the effect of the next render. *)
Definition dispatch (s : State) (ev : Event) : completion State :=
  s' ←! handle s ev;
  Normal (stepNumber_effect s s').

(** The events the rendered tree can produce: [Board] renders the
    squares [row * 3 + col] for rows and columns 0 to 2, [MoveHistory]
    one button per entry of [history], and there is one reset button. *)
Definition offered (s : State) (ev : Event) : bool :=
  match ev with
  | Click i => (0 <=? i) && (i <=? 8)
  | Reset => true
  | Jump move => (0 <=? move) && (move <? Z.of_nat (length (history s)))
  end.

(** The states the component can be in. *)
Inductive reachable : State → Prop :=
  | reachable_init : reachable initialState
  | reachable_step s ev s' :
      reachable s →
      offered s ev = true →
      dispatch s ev = Normal s' →
      reachable s'.

(** Running a list of events from a state. *)
Fixpoint run (s : State) (evs : list Event) : completion State :=
  match evs with
  | [] => Normal s
  | ev :: rest => s' ←! dispatch s ev; run s' rest
  end.

(** ** Derived views *)

(** The outcome of a board, as the render's [winnerObj] and [draw]
    together give it. *)
Inductive Outcome :=
  | Undecided
  | Win (player : jsval) (l : line)
  | Draw.

#[global] Instance Outcome_eq_dec : EqDecision Outcome.
Proof. solve_decision. Defined.

Definition classify (winnerObj : option WinnerObj) (draw : bool) : Outcome :=
  match winnerObj with
  | Some w => Win (winner w) (win_line w)
  | None => if draw then Draw else Undecided
  end.

(** The outcome evaluator: [calculateWinner] followed by the draw test,
    as in the body of the component. *)
Definition evaluate (squares : option jsarray) : completion Outcome :=
  winnerObj ←! calculateWinner squares;
  draw ←! compute_draw winnerObj squares;
  Normal (classify winnerObj draw).

Definition outcome (v : View) : Outcome := classify (winnerObj v) (draw v).

(** The element [GameStatus] returns: its class and its text content. *)
Record StatusElement := mkStatus {
  className : string;
  textContent : string
}.

#[global] Instance StatusElement_eq_dec : EqDecision StatusElement.
Proof. solve_decision. Defined.

(** [GameStatus({ winner, draw, xIsNext })]. *)
Definition GameStatus (winner : jsval) (draw : bool) (xIsNext : bool) : StatusElement :=
  if truthy winner then
    mkStatus "ttt-status ttt-status--winner" ("Winner: " +:+ jsx_text winner +:+ " 🎉")
  else if draw then
    mkStatus "ttt-status ttt-status--draw" "It's a draw! 🤝"
  else
    mkStatus "ttt-status" ("Next player: " +:+ (if xIsNext then "X" else "O")).

(** [winnerObj?.winner]. *)
Definition optional_winner (winnerObj : option WinnerObj) : jsval :=
  match winnerObj with
  | Some w => winner w
  | None => JUndefined
  end.

(** The props the component passes to [GameStatus] and [Board]. *)
Definition status (s : State) : completion StatusElement :=
  v ←! render s;
  Normal (GameStatus (optional_winner (winnerObj v)) (draw v) (xIsNext s)).

(** [winnerObj ? winnerObj.line : null]. *)
Definition winningLine (s : State) : completion (option line) :=
  v ←! render s;
  Normal (win_line <$> winnerObj v).

(** ** Vocabulary of the properties *)

(** The enumeration order of [lines]: rows, then columns, then
    diagonals. *)
Definition rows : list line := [ (0, 1, 2); (3, 4, 5); (6, 7, 8) ].
Definition columns : list line := [ (0, 3, 6); (1, 4, 7); (2, 5, 8) ].
Definition diagonals : list line := [ (0, 4, 8); (2, 4, 6) ].

Definition line_in_range (l : line) : Prop :=
  let '(x, y, z) := l in 0 ≤ x ≤ 8 ∧ 0 ≤ y ≤ 8 ∧ 0 ≤ z ≤ 8.

(** The values a square of a played board holds. *)
Definition is_cell (v : jsval) : Prop :=
  v = JNull ∨ v = JStr "X" ∨ v = JStr "O".

#[global] Instance is_cell_dec (v : jsval) : Decision (is_cell v).
Proof. unfold is_cell. apply _. Defined.

(** A 9-cell board: nine squares holding [null], ["X"] or ["O"], and no
    other property. *)
Definition board9 (b : jsarray) : Prop :=
  length (elems b) = 9%nat ∧ Forall is_cell (elems b) ∧ props b = ∅.

#[global] Instance board9_dec (b : jsarray) : Decision (board9 b).
Proof. unfold board9. apply _. Defined.

(** The three squares of a line hold the same mark. *)
Definition three_in_a_row (b : jsarray) (l : line) : Prop :=
  let '(x, y, z) := l in
  arr_get b x ≠ JNull ∧ arr_get b y = arr_get b x ∧ arr_get b z = arr_get b x.

(** [l] is the first line of the enumeration with three equal marks. *)
Definition first_complete (b : jsarray) (l : line) : Prop :=
  ∃ pre post,
    rows ++ columns ++ diagonals = pre ++ l :: post ∧
    Forall (λ l', ¬ three_in_a_row b l') pre ∧
    three_in_a_row b l.

(** No square of the board is empty. *)
Definition no_empty_cell (b : jsarray) : Prop :=
  ∀ i, 0 ≤ i ≤ 8 → arr_get b i ≠ JNull.

(** Two boards differ by exactly one square, changed from empty to a
    player mark. *)
Definition differs_by_one_mark (b b' : jsarray) : Prop :=
  ∃ (j : nat) (m : string),
    (j < 9)%nat ∧ (m = "X" ∨ m = "O") ∧
    elems b !! j = Some JNull ∧
    elems b' !! j = Some (JStr m) ∧
    (∀ j' : nat, j' ≠ j → elems b' !! j' = elems b !! j') ∧
    length (elems b') = length (elems b) ∧
    props b' = props b.

(** A click on square [i] is accepted when its handler changes the
    state, that is, when it gets past the [return] of its guard. *)
Definition accepted (s : State) (i : Z) (s' : State) : Prop :=
  dispatch s (Click i) = Normal s' ∧ s' ≠ s.

(** The number of marks on a board. *)
Definition count_marks (b : jsarray) : nat :=
  length (filter (λ square, square ≠ JNull) (elems b)).

(** The status element as a function of the board alone: the turn is
    read off the parity of the number of marks. *)
Definition status_of_board (b : jsarray) : StatusElement :=
  let w := calculateWinner_loop b lines in
  GameStatus (optional_winner w)
             (match w with Some _ => false | None => arr_every_not_null b end)
             (Nat.even (count_marks b)).

(** Every event of the list is offered in the state it is dispatched
    in, and none throws. *)
Fixpoint all_offered (s : State) (evs : list Event) : bool :=
  match evs with
  | [] => true
  | ev :: rest =>
      offered s ev &&
      match dispatch s ev with
      | Normal s' => all_offered s' rest
      | TypeError => false
      end
  end.

(** ** The invariant of the reachable states *)

(** The mark the parity of a step selects. *)
Definition mark_of_step (k : Z) : string :=
  if Z.even k then "X" else "O".

(** [b'] is [b] with the one empty square [j] set to the mark [m]. *)
Definition placed (m : string) (j : Z) (b b' : jsarray) : Prop :=
  0 ≤ j ≤ 8 ∧ arr_get b j = JNull ∧ b' = arr_set b j (JStr m).

(** The step points into the history, the turn flag is the parity of the
    step, the history starts with the empty board, and each entry was
    obtained from the one before it, which had no winner, by placing the
    mark of its step on an empty square. *)
Record Inv (s : State) : Prop := mkInv {
  inv_step : 0 ≤ stepNumber s < Z.of_nat (length (history s));
  inv_turn : xIsNext s = Z.even (stepNumber s);
  inv_first : history s !! 0%nat = Some emptyBoard;
  inv_boards : Forall board9 (history s);
  inv_moves : ∀ (k : nat) b b',
      history s !! k = Some b → history s !! S k = Some b' →
      calculateWinner_loop b lines = None ∧
      ∃ j, placed (mark_of_step (Z.of_nat k)) j b b'
}.

(** The view of a state whose current board is [cur]. *)
Definition view_of (cur : jsarray) : View :=
  let w := calculateWinner_loop cur lines in
  mkView (Some cur) w (match w with Some _ => false | None => arr_every_not_null cur end).

(** The state an accepted click on square [i] of the current board [cur]
    leads to. *)
Definition click_result (s : State) (cur : jsarray) (i : Z) : State :=
  mkState (take (S (Z.to_nat (stepNumber s))) (history s)
             ++ [arr_set cur i (JStr (if xIsNext s then "X" else "O"))])
          (stepNumber s + 1)
          (negb (xIsNext s)).

(** ** The boards as objects in a store

    In the program the entries of [history] are references to array
    objects, and [squares[i] = ...] writes into an object in place.  The
    model below keeps the objects in a store and the references in the
    history, so that writing into an entry of the history would show. *)

Definition loc : Type := positive.

Record RefState := mkRefState {
  store : gmap loc jsarray;
  history_refs : list loc;
  ref_stepNumber : Z;
  ref_xIsNext : bool
}.

(** The object a reference (or [undefined]) points to. *)
Definition deref (σ : gmap loc jsarray) (r : option loc) : option jsarray :=
  r ≫= λ l, σ !! l.

(** A new array object: a reference not yet in the store. *)
Definition alloc (σ : gmap loc jsarray) (a : jsarray) : loc * gmap loc jsarray :=
  let l := fresh (dom σ) in (l, <[l := a]> σ).

(** [r[i] = v] on the object behind the reference [r]. *)
Definition store_write (σ : gmap loc jsarray) (r : loc) (i : Z) (v : jsval)
    : gmap loc jsarray :=
  alter (λ a, arr_set a i v) r σ.

(** The initial [useState] values: one new board. *)
Definition ref_initialState : RefState :=
  let '(b, σ) := alloc ∅ emptyBoard in mkRefState σ [b] 0 true.

Definition ref_render (rs : RefState) : completion View :=
  let currentSquares :=
    deref (store rs) (js_index (history_refs rs) (ref_stepNumber rs)) in
  winnerObj ←! calculateWinner currentSquares;
  draw ←! compute_draw winnerObj currentSquares;
  Normal (mkView currentSquares winnerObj draw).

(** [handleClick(i)]: [current.slice()] allocates the copy that is then
    written and appended. *)
Definition ref_handleClick (rs : RefState) (v : View) (i : Z) : completion RefState :=
  let historyUpToStep := js_slice0 (history_refs rs) (ref_stepNumber rs + 1) in
  let current := js_index historyUpToStep (Z.of_nat (length historyUpToStep) - 1) in
  match winnerObj v with
  | Some _ => Normal rs
  | None =>
      occupied ←! get_prop (deref (store rs) current) i;
      if truthy occupied then Normal rs
      else
        copy ←! call_slice (deref (store rs) current);
        let '(squares, σ) := alloc (store rs) copy in
        let σ := store_write σ squares i (JStr (if ref_xIsNext rs then "X" else "O")) in
        Normal (mkRefState σ (historyUpToStep ++ [squares])
                           (Z.of_nat (length historyUpToStep))
                           (negb (ref_xIsNext rs)))
  end.

Definition ref_resetGame (rs : RefState) : RefState :=
  let '(b, σ) := alloc (store rs) emptyBoard in mkRefState σ [b] 0 true.

Definition ref_jumpTo (rs : RefState) (move : Z) : RefState :=
  mkRefState (store rs) (history_refs rs) move (Z.rem move 2 =? 0).

Definition ref_stepNumber_effect (prev rs : RefState) : RefState :=
  match ref_render rs with
  | Normal _ =>
      if negb (ref_stepNumber rs =? ref_stepNumber prev) && (ref_stepNumber rs =? 0)
      then mkRefState (store rs) (history_refs rs) (ref_stepNumber rs) true
      else rs
  | TypeError => rs
  end.

Definition ref_handle (rs : RefState) (ev : Event) : completion RefState :=
  v ←! ref_render rs;
  match ev with
  | Click i => ref_handleClick rs v i
  | Reset => Normal (ref_resetGame rs)
  | Jump move => Normal (ref_jumpTo rs move)
  end.

Definition ref_dispatch (rs : RefState) (ev : Event) : completion RefState :=
  rs' ←! ref_handle rs ev;
  Normal (ref_stepNumber_effect rs rs').

(** A state of values is what a state of references denotes. *)
Definition represents (rs : RefState) (s : State) : Prop :=
  Forall2 (λ l b, store rs !! l = Some b) (history_refs rs) (history s) ∧
  ref_stepNumber rs = stepNumber s ∧
  ref_xIsNext rs = xIsNext s.

(** Every object of the store [σ] is in [σ'] with the same contents. *)
Definition objects_unchanged (σ σ' : gmap loc jsarray) : Prop :=
  ∀ l a, σ !! l = Some a → σ' !! l = Some a.

(** Two computations complete alike, with related results. *)
Definition crel {A B} (R : A → B → Prop) (c : completion A) (d : completion B) : Prop :=
  match c, d with
  | Normal a, Normal b => R a b
  | TypeError, TypeError => True
  | _, _ => False
  end.

(** ** Sample positions *)

(** The board after "X" on square 0, and the state after that move. *)
Definition board_X0 : jsarray := JsArray (JStr "X" :: replicate 8 JNull) ∅.

Definition state_after_X0 : State := mkState [emptyBoard; board_X0] 1 false.

(** A board on which "X" holds the top row. *)
Definition board_top_row : jsarray :=
  JsArray [JStr "X"; JStr "X"; JStr "X"; JStr "O"; JStr "O"; JNull; JNull; JNull; JNull] ∅.

(** The state after the moves 0, 1, 2 from the fresh game. *)
Definition state_after_012 : State :=
  mkState [ emptyBoard;
            board_X0;
            JsArray (JStr "X" :: JStr "O" :: replicate 7 JNull) ∅;
            JsArray (JStr "X" :: JStr "O" :: JStr "X" :: replicate 6 JNull) ∅ ]
          3 false.

(** ** The rendered tree *)

(** [String(v)], as a template literal converts a value. *)
Definition js_to_string (v : jsval) : string :=
  match v with
  | JStr s => s
  | JNull => "null"
  | JUndefined => "undefined"
  end.

(** The button [Square] returns.  A click handler is represented by the
    event it forwards. *)
Record SquareElement := mkSquare {
  square_className : string;
  square_onClick : Event;
  square_ariaLabel : string;
  square_children : jsval
}.

#[global] Instance Event_eq_dec : EqDecision Event.
Proof. solve_decision. Defined.

#[global] Instance SquareElement_eq_dec : EqDecision SquareElement.
Proof. solve_decision. Defined.

(** [Square({ value, onClick, highlight })]; [highlight] is [null]
    ([None]) or a boolean. *)
Definition Square (value : jsval) (onClick : Event) (highlight : option bool)
    : SquareElement :=
  mkSquare
    ("ttt-square" +:+
       match highlight with Some true => " highlight" | Some false | None => "" end)
    onClick
    (if truthy value then "Cell: " +:+ js_to_string value else "Empty cell")
    value.

(** [winningLine.includes(i)]. *)
Definition line_includes (l : line) (i : Z) : bool :=
  let '(a, b, c) := l in (i =? a) || (i =? b) || (i =? c).

(** [renderSquare(i)] inside [Board]:
    [isHighlight = winningLine && winningLine.includes(i)]. *)
Definition renderSquare (squares : jsarray) (winningLine : option line) (i : Z)
    : SquareElement :=
  let isHighlight :=
    match winningLine with
    | None => None
    | Some l => Some (line_includes l i)
    end in
  Square (arr_get squares i) (Click i) isHighlight.

(** [Board({ squares, onSquareClick, winningLine })]: three rows of three
    squares. *)
Definition Board (squares : jsarray) (winningLine : option line)
    : list (list SquareElement) :=
  (λ row, (λ col, renderSquare squares winningLine (row * 3 + col)) <$> [0; 1; 2])
    <$> [0; 1; 2].

(** A button of the move list. *)
Record HistoryButton := mkHistoryButton {
  button_className : string;
  button_onClick : Event;
  button_label : string
}.

#[global] Instance HistoryButton_eq_dec : EqDecision HistoryButton.
Proof. solve_decision. Defined.

(** [MoveHistory({ history, stepNumber, jumpTo })]: one button per entry
    of [history], [move] being the index of the entry. *)
Definition MoveHistory {A} (history : list A) (stepNumber : Z) : list HistoryButton :=
  imap (λ (move : nat) (_step : A),
          mkHistoryButton
            ("ttt-history-btn" +:+ (if Z.of_nat move =? stepNumber then " active" else ""))
            (Jump (Z.of_nat move))
            (if Z.of_nat move =? 0 then "Go to game start"
             else "Go to move #" +:+ pretty move))
       history.

(** What [TicTacToeGame] returns: the status, the board, the reset
    button (by the event of its handler) and the move list. *)
Record GameTree := mkGameTree {
  tree_status : StatusElement;
  tree_board : list (list SquareElement);
  tree_reset : Event;
  tree_history : list HistoryButton
}.

(** The [return] of [TicTacToeGame]; [Board] reads [squares[i]], which
    throws for an undefined [currentSquares]. *)
Definition TicTacToeGame (s : State) : completion GameTree :=
  v ←! render s;
  squares ←! match currentSquares v with
             | Some sq => Normal sq
             | None => TypeError
             end;
  Normal (mkGameTree
            (GameStatus (optional_winner (winnerObj v)) (draw v) (xIsNext s))
            (Board squares (win_line <$> winnerObj v))
            Reset
            (MoveHistory (history s) (stepNumber s))).

(** The events the handlers of a tree forward. *)
Definition tree_events (t : GameTree) : list Event :=
  (square_onClick <$> concat (tree_board t))
    ++ [tree_reset t]
    ++ (button_onClick <$> tree_history t).

(** ** The theme toggle of [App] *)

(** [toggleTheme]: [prevTheme === 'light' ? 'dark' : 'light']. *)
Definition toggleTheme (prevTheme : string) : string :=
  if bool_decide (prevTheme = "light") then "dark" else "light".

(** The toggle button: its label for assistive technology and its
    text. *)
Record ThemeButton := mkThemeButton {
  theme_ariaLabel : string;
  theme_text : string
}.

Definition themeButton (theme : string) : ThemeButton :=
  mkThemeButton
    ("Switch to " +:+ (if bool_decide (theme = "light") then "dark" else "light")
       +:+ " mode")
    (if bool_decide (theme = "light") then "🌙 Dark" else "☀️ Light").

(** The state of [App] together with the [data-theme] attribute of the
    document, which the effect on [theme] writes after every render that
    changed [theme] (and after the first one). *)
Record AppState := mkAppState {
  theme : string;
  data_theme : string
}.

Definition app_initial : AppState := mkAppState "light" "light".

(** A click on the toggle button: the state update, then the effect. *)
Definition app_toggle (a : AppState) : AppState :=
  let theme' := toggleTheme (theme a) in
  mkAppState theme' theme'.

Inductive app_reachable : AppState → Prop :=
  | app_reachable_init : app_reachable app_initial
  | app_reachable_toggle a : app_reachable a → app_reachable (app_toggle a).

(** ** Further vocabulary *)

(** The number of squares of a board holding the mark [m]. *)
Definition count_of (m : string) (b : jsarray) : nat :=
  length (filter (λ square, square = JStr m) (elems b)).

(** The line passes the test of [calculateWinner] on an arbitrary
    array. *)
Definition line_passes (squares : jsarray) (l : line) : Prop :=
  let '(a, b, c) := l in
  truthy (arr_get squares a) = true ∧
  arr_get squares b = arr_get squares a ∧
  arr_get squares c = arr_get squares a.

(** A square carries the highlight class. *)
Definition highlighted (e : SquareElement) : Prop :=
  square_className e = "ttt-square highlight".

#[global] Instance highlighted_dec (e : SquareElement) : Decision (highlighted e).
Proof. unfold highlighted. apply _. Defined.

(** A button of the move list carries the active class. *)
Definition active (e : HistoryButton) : Prop :=
  button_className e = "ttt-history-btn active".

#[global] Instance active_dec (e : HistoryButton) : Decision (active e).
Proof. unfold active. apply _. Defined.

(** The states of the store model reached by any events whose handlers
    complete, offered by the interface or not. *)
Inductive ref_reachable : RefState → Prop :=
  | ref_reachable_init : ref_reachable ref_initialState
  | ref_reachable_step rs ev rs' :
      ref_reachable rs →
      ref_dispatch rs ev = Normal rs' →
      ref_reachable rs'.

(** A history as the moves build it: it starts with the empty board, and
    each entry is the one before it, which has no winner, with the mark
    of its step placed on an empty square. *)
Fixpoint played_from (k : nat) (b : jsarray) (rest : list jsarray) : Prop :=
  match rest with
  | [] => True
  | b' :: rest' =>
      calculateWinner_loop b lines = None ∧
      (∃ j, placed (mark_of_step (Z.of_nat k)) j b b') ∧
      played_from (S k) b' rest'
  end.

(** A state whose history is a played one, whose step points into it and
    whose turn is the parity of the step. *)
Definition well_played (s : State) : Prop :=
  (∃ rest, history s = emptyBoard :: rest ∧ played_from 0 emptyBoard rest) ∧
  0 ≤ stepNumber s < Z.of_nat (length (history s)) ∧
  xIsNext s = Z.even (stepNumber s).

(** ** Further sample positions *)

(** The state after the moves 0, 1 from the fresh game. *)
Definition state_after_01 : State :=
  mkState [ emptyBoard;
            board_X0;
            JsArray (JStr "X" :: JStr "O" :: replicate 7 JNull) ∅ ]
          2 true.

(** The state after the moves 0, 3, 1, 4, 2: "X" holds the top row. *)
Definition state_top_row_won : State :=
  mkState [ emptyBoard;
            board_X0;
            JsArray [JStr "X"; JNull; JNull; JStr "O"; JNull; JNull; JNull; JNull; JNull] ∅;
            JsArray [JStr "X"; JStr "X"; JNull; JStr "O"; JNull; JNull; JNull; JNull; JNull] ∅;
            JsArray [JStr "X"; JStr "X"; JNull; JStr "O"; JStr "O"; JNull; JNull; JNull; JNull] ∅;
            JsArray [JStr "X"; JStr "X"; JStr "X"; JStr "O"; JStr "O"; JNull; JNull; JNull; JNull] ∅ ]
          5 false.

(** An array that is not a board: three squares holding "Z". *)
Definition three_Z : jsarray := JsArray [JStr "Z"; JStr "Z"; JStr "Z"] ∅.

(** ** The operations called with arbitrary arguments *)

(** The states the engine can be in when clicks and jumps are dispatched
    with any integer argument, offered by the interface or not, for as
    long as the component renders: a state whose render throws has no
    handlers to call. *)
Inductive engine_reachable : State → Prop :=
  | engine_reachable_init : engine_reachable initialState
  | engine_reachable_step s ev s' :
      engine_reachable s →
      dispatch s ev = Normal s' →
      completes (render s') →
      engine_reachable s'.

(** The state an accepted click with any index [i] leads to, for any
    array [cur] as current board: the new entry is the copy
    [current.slice()] with [squares[i]] written. *)
Definition copy_click_result (s : State) (cur : jsarray) (i : Z) : State :=
  mkState (take (S (Z.to_nat (stepNumber s))) (history s)
             ++ [arr_set (arr_slice cur) i (JStr (if xIsNext s then "X" else "O"))])
          (stepNumber s + 1)
          (negb (xIsNext s)).

(** The state after a click with index 9 on the fresh game: the new
    entry has ten elements. *)
Definition state_after_click_9 : State :=
  mkState [emptyBoard; JsArray (replicate 9 JNull ++ [JStr "X"]) ∅] 1 false.

(** Running a list of events in the store model. *)
Fixpoint ref_run (rs : RefState) (evs : list Event) : completion RefState :=
  match evs with
  | [] => Normal rs
  | ev :: rest => rs' ←! ref_dispatch rs ev; ref_run rs' rest
  end.

(** The store model after the moves 0, 1, a jump back to step 1 and the
    move 5: the object 3 of the abandoned entry stays in the store, the
    history refers to the objects 1, 2 and 4. *)
Definition ref_state_branched : RefState :=
  mkRefState
    (<[4%positive := JsArray [JStr "X"; JNull; JNull; JNull; JNull; JStr "O";
                              JNull; JNull; JNull] ∅]>
       (<[3%positive := JsArray (JStr "X" :: JStr "O" :: replicate 7 JNull) ∅]>
          (<[2%positive := board_X0]> {[ 1%positive := emptyBoard ]})))
    [1%positive; 2%positive; 4%positive]
    2 true.

(** * Properties *)

(** The enumeration order of the lines. *)
Lemma lines_order : lines = rows ++ columns ++ diagonals.
Proof. reflexivity. Qed.

(** The table of lines is unfolded only where a proof enumerates it. *)
Opaque lines.

(** ** Basic facts about the array operations *)

Lemma js_index_nonneg {A} (h : list A) (n : Z) :
  0 ≤ n → js_index h n = h !! Z.to_nat n.
Proof. intros Hn. unfold js_index. by rewrite (proj2 (Z.leb_le 0 n) Hn). Qed.

Lemma js_index_neg {A} (h : list A) (n : Z) : n < 0 → js_index h n = None.
Proof. intros Hn. unfold js_index. by rewrite (proj2 (Z.leb_gt 0 n) Hn). Qed.

Lemma js_index_None {A} (h : list A) (n : Z) :
  js_index h n = None ↔ n < 0 ∨ Z.of_nat (length h) ≤ n.
Proof.
  destruct (Z.lt_ge_cases n 0) as [Hn|Hn].
  - rewrite js_index_neg by done. split; [auto|done].
  - rewrite js_index_nonneg by done. rewrite lookup_ge_None. lia.
Qed.

Lemma js_slice0_in_range {A} (h : list A) (c : Z) :
  0 ≤ c < Z.of_nat (length h) →
  js_slice0 h (c + 1) = take (S (Z.to_nat c)) h.
Proof.
  intros Hc. unfold js_slice0.
  rewrite (proj2 (Z.ltb_ge (c + 1) 0)) by lia.
  f_equal. lia.
Qed.

Lemma length_take_S {A} (h : list A) (c : nat) :
  (c < length h)%nat → length (take (S c) h) = S c.
Proof. intros Hc. rewrite length_take. lia. Qed.

Lemma is_array_index_small (i : Z) : 0 ≤ i ≤ 8 → is_array_index i = true.
Proof.
  intros Hi. unfold is_array_index.
  apply andb_true_iff. split; [apply Z.leb_le | apply Z.ltb_lt]; lia.
Qed.

Lemma arr_get_small (b : jsarray) (i : Z) :
  0 ≤ i ≤ 8 → arr_get b i = default JUndefined (elems b !! Z.to_nat i).
Proof. intros Hi. unfold arr_get. by rewrite is_array_index_small. Qed.

Lemma arr_set_small (b : jsarray) (i : Z) (v : jsval) :
  0 ≤ i ≤ 8 → length (elems b) = 9%nat →
  arr_set b i v = JsArray (<[Z.to_nat i := v]> (elems b)) (props b).
Proof.
  intros Hi Hlen. unfold arr_set. rewrite is_array_index_small by done.
  rewrite bool_decide_true; [done | lia].
Qed.

Lemma arr_slice_board9 (b : jsarray) : board9 b → arr_slice b = b.
Proof. intros (_ & _ & Hp). destruct b as [e p]; simpl in *. by subst. Qed.

Lemma board9_empty : board9 emptyBoard.
Proof.
  split; [done|]. split; [|done].
  apply Forall_forall. intros v Hv.
  apply elem_of_replicate in Hv as [-> _]. by left.
Qed.

Lemma board9_cell (b : jsarray) (i : Z) :
  board9 b → 0 ≤ i ≤ 8 → is_cell (arr_get b i).
Proof.
  intros (Hlen & Hall & _) Hi. rewrite arr_get_small by done.
  destruct (elems b !! Z.to_nat i) as [v|] eqn:Hv.
  - simpl. eapply Forall_lookup_1; eauto.
  - apply lookup_ge_None in Hv. lia.
Qed.

Lemma is_cell_truthy (v : jsval) : is_cell v → truthy v = false ↔ v = JNull.
Proof. intros [-> | [-> | ->]]; simpl; split; (done || discriminate). Qed.

Lemma is_cell_not_null (v : jsval) :
  is_cell v → negb (strict_eq v JNull) = truthy v.
Proof. by intros [-> | [-> | ->]]. Qed.

Lemma board9_set (b : jsarray) (i : Z) (m : string) :
  board9 b → 0 ≤ i ≤ 8 → m = "X" ∨ m = "O" →
  board9 (arr_set b i (JStr m)).
Proof.
  intros (Hlen & Hall & Hp) Hi Hm. rewrite arr_set_small by done.
  split; [|split]; simpl; [by rewrite length_insert | | done].
  apply Forall_insert; [done|]. destruct Hm as [-> | ->]; [right; by left | right; by right].
Qed.

Lemma mark_of_step_cases (k : Z) : mark_of_step k = "X" ∨ mark_of_step k = "O".
Proof. unfold mark_of_step. destruct (Z.even k); auto. Qed.

Lemma placed_differs (m : string) (j : Z) (b b' : jsarray) :
  board9 b → m = "X" ∨ m = "O" → placed m j b b' → differs_by_one_mark b b'.
Proof.
  intros Hb Hm (Hj & Hnull & ->).
  pose proof Hb as (Hlen & Hall & Hp).
  rewrite arr_set_small by done. rewrite arr_get_small in Hnull by done.
  exists (Z.to_nat j), m. simpl.
  assert (Z.to_nat j < length (elems b))%nat as Hlt by lia.
  destruct (lookup_lt_is_Some_2 _ _ Hlt) as [v Hv]. rewrite Hv in Hnull. simpl in Hnull. subst v.
  repeat split; [lia | done | done | by apply list_lookup_insert_eq | | by rewrite length_insert].
  intros j' Hne. by apply list_lookup_insert_ne.
Qed.

(** ** The render and the handlers on well-formed states *)

Lemma Inv_current (s : State) :
  Inv s → ∃ cur, history s !! Z.to_nat (stepNumber s) = Some cur ∧ board9 cur.
Proof.
  intros HI. destruct HI as [Hstep _ _ Hb _].
  destruct (lookup_lt_is_Some_2 (history s) (Z.to_nat (stepNumber s))) as [cur Hcur]; [lia|].
  exists cur. split; [done|]. eapply Forall_lookup_1; eauto.
Qed.

Lemma render_current (s : State) (cur : jsarray) :
  0 ≤ stepNumber s →
  history s !! Z.to_nat (stepNumber s) = Some cur →
  render s = Normal (view_of cur).
Proof.
  intros Hs Hcur. unfold render. rewrite js_index_nonneg, Hcur by done.
  unfold view_of, calculateWinner.
  by destruct (calculateWinner_loop cur lines).
Qed.

Lemma render_completes_iff (s : State) :
  completes (render s) ↔ 0 ≤ stepNumber s < Z.of_nat (length (history s)).
Proof.
  split.
  - intros [v Hv]. unfold render in Hv.
    destruct (js_index (history s) (stepNumber s)) as [cur|] eqn:Hcur; [|done].
    destruct (Z.lt_ge_cases (stepNumber s) 0) as [Hn|Hn].
    + by rewrite js_index_neg in Hcur.
    + rewrite js_index_nonneg in Hcur by done.
      apply lookup_lt_Some in Hcur. lia.
  - intros Hs.
    destruct (lookup_lt_is_Some_2 (history s) (Z.to_nat (stepNumber s))) as [cur Hcur]; [lia|].
    eexists. apply render_current; [lia | done].
Qed.

Lemma handleClick_current (s : State) (cur : jsarray) (i : Z) :
  0 ≤ stepNumber s →
  history s !! Z.to_nat (stepNumber s) = Some cur →
  board9 cur →
  handleClick s (view_of cur) i =
    Normal (match calculateWinner_loop cur lines with
            | Some _ => s
            | None => if truthy (arr_get cur i) then s else click_result s cur i
            end).
Proof.
  intros Hs Hcur Hb.
  assert (0 ≤ stepNumber s < Z.of_nat (length (history s))) as Hrange.
  { apply lookup_lt_Some in Hcur. lia. }
  unfold handleClick. rewrite js_slice0_in_range by done.
  rewrite length_take_S by lia.
  replace (Z.of_nat (S (Z.to_nat (stepNumber s))) - 1) with (stepNumber s) by lia.
  rewrite js_index_nonneg by lia.
  rewrite lookup_take_lt by lia. rewrite Hcur.
  unfold view_of.
  destruct (calculateWinner_loop cur lines) as [w|]; simpl; [done|].
  destruct (truthy (arr_get cur i)); [done|]. simpl.
  rewrite arr_slice_board9 by done.
  unfold click_result. do 2 f_equal. lia.
Qed.

Lemma stepNumber_effect_same (prev s : State) :
  stepNumber s = stepNumber prev ∨ stepNumber s ≠ 0 ∨ xIsNext s = true →
  stepNumber_effect prev s = s.
Proof.
  intros H. unfold stepNumber_effect.
  destruct (render s); [|done].
  destruct (negb (stepNumber s =? stepNumber prev) && (stepNumber s =? 0)) eqn:E; [|done].
  apply andb_true_iff in E as [E1 E2].
  apply negb_true_iff, Z.eqb_neq in E1. apply Z.eqb_eq in E2.
  destruct H as [H|[H|H]]; [done | done |].
  destruct s; simpl in *. by subst.
Qed.

Lemma dispatch_click (s : State) (cur : jsarray) (i : Z) :
  0 ≤ stepNumber s →
  history s !! Z.to_nat (stepNumber s) = Some cur →
  board9 cur →
  dispatch s (Click i) =
    Normal (match calculateWinner_loop cur lines with
            | Some _ => s
            | None => if truthy (arr_get cur i) then s else click_result s cur i
            end).
Proof.
  intros Hs Hcur Hb. unfold dispatch.
  assert (handle s (Click i) = handleClick s (view_of cur) i) as ->.
  { unfold handle. by rewrite (render_current s cur). }
  rewrite handleClick_current by done. unfold cbind. f_equal.
  destruct (calculateWinner_loop cur lines); [apply stepNumber_effect_same; by left|].
  destruct (truthy _); [apply stepNumber_effect_same; by left|].
  apply stepNumber_effect_same. right; left. simpl. lia.
Qed.

Lemma dispatch_reset (s : State) :
  completes (render s) → dispatch s Reset = Normal initialState.
Proof.
  intros [v Hv]. unfold dispatch, handle. rewrite Hv. simpl. f_equal.
  apply stepNumber_effect_same. right; by right.
Qed.

Lemma rem2_even (m : Z) : (Z.rem m 2 =? 0) = Z.even m.
Proof.
  destruct (Z.even m) eqn:E.
  - apply Z.eqb_eq. apply Z.even_spec in E as [k ->].
    rewrite Z.mul_comm. by apply Z.rem_mul.
  - apply Z.eqb_neq. intros H.
    apply Z.rem_divide in H; [|done]. destruct H as [k ->].
    rewrite Z.mul_comm, Z.even_mul in E. done.
Qed.

Lemma dispatch_jump (s : State) (move : Z) :
  completes (render s) →
  dispatch s (Jump move) = Normal (mkState (history s) move (Z.even move)).
Proof.
  intros [v Hv]. unfold dispatch, handle. rewrite Hv. simpl. f_equal.
  unfold jumpTo. rewrite rem2_even.
  apply stepNumber_effect_same. simpl.
  destruct (Z.eq_dec move 0) as [->|Hne]; [right; by right | right; by left].
Qed.

(** ** The invariant holds in every reachable state *)

Lemma Inv_initial : Inv initialState.
Proof.
  split; simpl; [lia | done | done | |].
  - apply Forall_singleton, board9_empty.
  - intros k b b' _ Hb'. done.
Qed.

Lemma Inv_click_result (s : State) (cur : jsarray) (i : Z) :
  Inv s →
  history s !! Z.to_nat (stepNumber s) = Some cur →
  calculateWinner_loop cur lines = None →
  0 ≤ i ≤ 8 →
  arr_get cur i = JNull →
  Inv (click_result s cur i).
Proof.
  intros HI Hcur Hw Hi Hnull.
  pose proof HI as [Hstep Hturn Hfirst Hboards Hmoves].
  assert (board9 cur) as Hb by (eapply Forall_lookup_1; eauto).
  set (c := Z.to_nat (stepNumber s)) in *.
  assert (c < length (history s))%nat as Hc by lia.
  assert ((if xIsNext s then "X" else "O") = mark_of_step (Z.of_nat c)) as Hmark.
  { unfold mark_of_step. rewrite Hturn. by replace (Z.of_nat c) with (stepNumber s) by lia. }
  unfold click_result. fold c. rewrite Hmark.
  split; simpl.
  - rewrite length_app, length_take_S by done. simpl. lia.
  - rewrite Hturn. replace (stepNumber s + 1) with (Z.succ (stepNumber s)) by lia.
    by rewrite Z.even_succ, Z.negb_even.
  - rewrite lookup_app_l by (rewrite length_take_S by done; lia).
    rewrite lookup_take_lt by lia. done.
  - apply Forall_app. split; [by apply Forall_take|].
    apply Forall_singleton, board9_set; [done | done | apply mark_of_step_cases].
  - intros k b b' Hk HSk.
    assert (S k ≤ S c)%nat as Hle.
    { apply lookup_lt_Some in HSk. rewrite length_app, length_take_S in HSk by done.
      simpl in HSk. lia. }
    rewrite lookup_app_l in Hk by (rewrite length_take_S by done; lia).
    rewrite lookup_take_lt in Hk by lia.
    destruct (decide (k = c)) as [->|Hne].
    + rewrite Hcur in Hk. injection Hk as <-.
      rewrite lookup_app_r in HSk by (rewrite length_take_S by done; lia).
      rewrite length_take_S in HSk by done.
      replace (S c - S c)%nat with 0%nat in HSk by lia. simpl in HSk.
      injection HSk as <-. split; [done|]. by exists i.
    + rewrite lookup_app_l in HSk by (rewrite length_take_S by done; lia).
      rewrite lookup_take_lt in HSk by lia. eauto.
Qed.

Lemma Inv_jump (s : State) (move : Z) :
  Inv s → 0 ≤ move < Z.of_nat (length (history s)) →
  Inv (mkState (history s) move (Z.even move)).
Proof. intros [? ? ? ? ?] Hm. by split. Qed.

Lemma Inv_render (s : State) : Inv s → completes (render s).
Proof. intros HI. apply render_completes_iff, HI. Qed.

Lemma Inv_dispatch (s : State) (ev : Event) (s' : State) :
  Inv s → offered s ev = true → dispatch s ev = Normal s' → Inv s'.
Proof.
  intros HI Hoff Hd.
  destruct ev as [i| |move]; simpl in Hoff.
  - apply andb_true_iff in Hoff as [H0 H8%Z.leb_le]. apply Z.leb_le in H0.
    destruct (Inv_current s HI) as (cur & Hcur & Hb).
    rewrite (dispatch_click s cur) in Hd by (done || apply HI).
    injection Hd as <-.
    destruct (calculateWinner_loop cur lines) eqn:Hw; [done|].
    destruct (truthy (arr_get cur i)) eqn:Ht; [done|].
    apply Inv_click_result; try done.
    apply is_cell_truthy; [by apply board9_cell | done].
  - rewrite dispatch_reset in Hd by by apply Inv_render.
    injection Hd as <-. apply Inv_initial.
  - apply andb_true_iff in Hoff as [H0%Z.leb_le Hlt%Z.ltb_lt].
    rewrite dispatch_jump in Hd by by apply Inv_render.
    injection Hd as <-. by apply Inv_jump.
Qed.

Lemma reachable_Inv (s : State) : reachable s → Inv s.
Proof.
  induction 1 as [|s ev s' _ IH Hoff Hd]; [apply Inv_initial|].
  by eapply Inv_dispatch.
Qed.

(** Every offered event is handled without a fault in a reachable state. *)
Lemma Inv_dispatch_completes (s : State) (ev : Event) :
  Inv s → completes (dispatch s ev).
Proof.
  intros HI. destruct ev as [i| |move].
  - destruct (Inv_current s HI) as (cur & Hcur & Hb).
    rewrite (dispatch_click s cur) by (done || apply HI). by eexists.
  - rewrite dispatch_reset by by apply Inv_render. by eexists.
  - rewrite dispatch_jump by by apply Inv_render. by eexists.
Qed.

Lemma run_app (s : State) (evs evs' : list Event) :
  run s (evs ++ evs') = (s' ←! run s evs; run s' evs').
Proof.
  revert s. induction evs as [|ev evs IH]; intros s; simpl; [done|].
  destruct (dispatch s ev); simpl; [apply IH | done].
Qed.

(** A run of offered events from a reachable state ends in a reachable
    state. *)
Lemma reachable_run (s : State) (evs : list Event) (s' : State) :
  reachable s → all_offered s evs = true → run s evs = Normal s' → reachable s'.
Proof.
  revert s. induction evs as [|ev evs IH]; intros s Hs Hoff Hrun; simpl in *.
  - by injection Hrun as <-.
  - apply andb_true_iff in Hoff as [Hoff Hrest].
    destruct (dispatch s ev) as [s1|] eqn:Hd; [|done]. simpl in Hrun.
    apply (IH s1); [by eapply reachable_step | done | done].
Qed.

(** ** The winner calculation finds the first complete line *)

Lemma lines_in_range : Forall line_in_range lines.
Proof.
  rewrite lines_order. unfold rows, columns, diagonals. simpl.
  repeat (apply Forall_cons_2; [unfold line_in_range; lia|]).
  apply Forall_nil_2.
Qed.

Lemma line_wins_iff (b : jsarray) (l : line) :
  board9 b → line_in_range l → line_wins b l = true ↔ three_in_a_row b l.
Proof.
  intros Hb. destruct l as [[x y] z]. intros (Hx & Hy & Hz).
  unfold line_wins, three_in_a_row, strict_eq.
  rewrite !andb_true_iff, !bool_decide_eq_true.
  pose proof (board9_cell b x Hb Hx) as Hc.
  assert (truthy (arr_get b x) = true ↔ arr_get b x ≠ JNull) as ->.
  { destruct Hc as [-> | [-> | ->]]; simpl; split; (done || discriminate). }
  split; [intros [[? ?] ?] | intros (? & ? & ?)]; auto.
Qed.

Lemma calculateWinner_loop_Some (b : jsarray) (ls : list line) (w : WinnerObj) :
  calculateWinner_loop b ls = Some w ↔
  ∃ pre post,
    ls = pre ++ win_line w :: post ∧
    Forall (λ l, line_wins b l = false) pre ∧
    line_wins b (win_line w) = true ∧
    winner w = arr_get b (win_line w).1.1.
Proof.
  revert w. induction ls as [|l rest IH]; intros w; simpl.
  - split; [done|]. intros (pre & post & Heq & _). by destruct pre.
  - destruct l as [[x y] z]. destruct (line_wins b (x, y, z)) eqn:Hl.
    + split.
      * intros [= <-]. exists [], rest. by repeat split.
      * intros (pre & post & Heq & Hpre & Hw & Hwin).
        destruct pre as [|l' pre]; simpl in Heq.
        -- injection Heq as Hl' _. destruct w as [p l0]; simpl in *. by subst.
        -- injection Heq as <- _. apply Forall_cons in Hpre as [Hf _]. congruence.
    + rewrite IH. split.
      * intros (pre & post & -> & Hpre & Hw & Hwin).
        exists ((x, y, z) :: pre), post. repeat split; [|done..]. by constructor.
      * intros (pre & post & Heq & Hpre & Hw & Hwin).
        destruct pre as [|l' pre]; simpl in Heq.
        -- injection Heq as Hl' _. rewrite <- Hl' in Hw. congruence.
        -- injection Heq as _ ->. apply Forall_cons in Hpre as [_ Hpre].
           by exists pre, post.
Qed.

Lemma calculateWinner_loop_None (b : jsarray) (ls : list line) :
  calculateWinner_loop b ls = None ↔ Forall (λ l, line_wins b l = false) ls.
Proof.
  induction ls as [|l rest IH]; simpl.
  - split; [constructor | done].
  - destruct l as [[x y] z]. destruct (line_wins b (x, y, z)) eqn:Hl.
    + split; [done|]. intros [Hf _]%Forall_cons. congruence.
    + rewrite IH. split; [by constructor | by intros [_ ?]%Forall_cons].
Qed.

Lemma arr_every_not_null_iff (b : jsarray) :
  board9 b → arr_every_not_null b = true ↔ no_empty_cell b.
Proof.
  intros Hb. pose proof Hb as (Hlen & Hall & _).
  unfold arr_every_not_null, no_empty_cell.
  rewrite forallb_forall. split.
  - intros H i Hi Hnull. rewrite arr_get_small in Hnull by done.
    destruct (elems b !! Z.to_nat i) as [v|] eqn:Hv.
    + simpl in Hnull. subst v.
      apply list_elem_of_lookup_2, list_elem_of_In, H in Hv. done.
    + apply lookup_ge_None in Hv. lia.
  - intros H v Hv. apply list_elem_of_In, list_elem_of_lookup in Hv as [n Hn].
    pose proof (lookup_lt_Some _ _ _ Hn) as Hlt.
    specialize (H (Z.of_nat n) ltac:(lia)).
    rewrite arr_get_small, Nat2Z.id, Hn in H by lia. simpl in H.
    unfold strict_eq. by rewrite bool_decide_false.
Qed.

(** ** Rejected moves *)

Lemma render_reachable (s : State) (v : View) (cur : jsarray) :
  Inv s → render s = Normal v → currentSquares v = Some cur →
  history s !! Z.to_nat (stepNumber s) = Some cur ∧ board9 cur ∧ v = view_of cur.
Proof.
  intros HI Hv Hcur. destruct (Inv_current s HI) as (cur' & Hcur' & Hb).
  rewrite (render_current s cur') in Hv by (done || apply HI).
  injection Hv as <-. simpl in Hcur. injection Hcur as ->. done.
Qed.

Lemma outcome_view_of (cur : jsarray) :
  outcome (view_of cur) =
    match calculateWinner_loop cur lines with
    | Some w => Win (winner w) (win_line w)
    | None => if arr_every_not_null cur then Draw else Undecided
    end.
Proof.
  unfold outcome, view_of, classify. simpl.
  by destruct (calculateWinner_loop cur lines).
Qed.

(** C1: in a reachable state, a click on a square 0..8 that is occupied,
    or on any square once the current board is won or drawn, raises
    nothing and returns the state unchanged, both for the handler alone
    and for the whole event (handler and effect). *)
Theorem rejected_move_is_noop (s : State) (i : Z) (v : View) (cur : jsarray) :
  reachable s →
  0 ≤ i ≤ 8 →
  render s = Normal v →
  currentSquares v = Some cur →
  arr_get cur i ≠ JNull ∨ outcome v ≠ Undecided →
  handle s (Click i) = Normal s ∧ dispatch s (Click i) = Normal s.
Proof.
  intros Hr Hi Hv Hcur Hrej. apply reachable_Inv in Hr.
  destruct (render_reachable s v cur Hr Hv Hcur) as (Hlook & Hb & ->).
  assert (0 ≤ stepNumber s) as Hs by apply Hr.
  assert (handle s (Click i) = handleClick s (view_of cur) i) as ->.
  { unfold handle. by rewrite Hv. }
  rewrite handleClick_current, (dispatch_click s cur) by done.
  rewrite outcome_view_of in Hrej.
  destruct (calculateWinner_loop cur lines) as [w|]; [done|].
  assert (truthy (arr_get cur i) = true) as ->; [|done].
  pose proof (board9_cell cur i Hb Hi) as Hc.
  assert (arr_get cur i ≠ JNull) as Hne.
  { destruct Hrej as [Hocc|Hdec]; [done|].
    destruct (arr_every_not_null cur) eqn:Hfull; [|done].
    by apply (arr_every_not_null_iff cur Hb). }
  destruct Hc as [Hc | [-> | ->]]; done.
Qed.

(** ** The outcome evaluator *)

Lemma Forall_line_wins_false (b : jsarray) (ls : list line) :
  board9 b → Forall line_in_range ls →
  Forall (λ l, line_wins b l = false) ls ↔ Forall (λ l, ¬ three_in_a_row b l) ls.
Proof.
  intros Hb Hr. induction Hr as [|l ls Hl _ IH].
  - split; constructor.
  - rewrite !Forall_cons, IH, <- (line_wins_iff b l Hb Hl).
    by rewrite not_true_iff_false.
Qed.

Lemma winner_first_complete (b : jsarray) (w : WinnerObj) :
  board9 b →
  calculateWinner_loop b lines = Some w ↔
  first_complete b (win_line w) ∧ winner w = arr_get b (win_line w).1.1.
Proof.
  intros Hb. rewrite calculateWinner_loop_Some. unfold first_complete.
  rewrite <- lines_order. pose proof lines_in_range as Hr.
  split.
  - intros (pre & post & Heq & Hpre & Hw & Hwin). split; [|done].
    rewrite Heq in Hr. apply Forall_app in Hr as [Hr1 Hr2].
    apply Forall_cons in Hr2 as [Hr2 _].
    exists pre, post. split; [done|]. split.
    + by apply Forall_line_wins_false.
    + by apply line_wins_iff.
  - intros [(pre & post & Heq & Hpre & Hw) Hwin].
    rewrite Heq in Hr. apply Forall_app in Hr as [Hr1 Hr2].
    apply Forall_cons in Hr2 as [Hr2 _].
    exists pre, post. split; [done|]. split; [|split; [|done]].
    + by apply Forall_line_wins_false.
    + by apply line_wins_iff.
Qed.

Lemma no_winner_no_line (b : jsarray) :
  board9 b →
  calculateWinner_loop b lines = None ↔
  ∀ l, l ∈ rows ++ columns ++ diagonals → ¬ three_in_a_row b l.
Proof.
  intros Hb. rewrite calculateWinner_loop_None.
  rewrite (Forall_line_wins_false b lines Hb lines_in_range).
  rewrite <- lines_order. apply Forall_forall.
Qed.

Lemma evaluate_board (b : jsarray) :
  evaluate (Some b) =
    Normal (match calculateWinner_loop b lines with
            | Some w => Win (winner w) (win_line w)
            | None => if arr_every_not_null b then Draw else Undecided
            end).
Proof.
  unfold evaluate, calculateWinner. simpl.
  by destruct (calculateWinner_loop b lines).
Qed.

(** C2: on every 9-cell board the evaluator completes with one outcome
    [o]; [o] is a win exactly when one of the eight lines (rows, then
    columns, then diagonals) holds three equal marks, the line reported
    is the first such line of that enumeration and the player is the mark
    on it; [o] is a draw exactly when no line holds three equal marks and
    no square is empty; otherwise [o] is undecided. *)
Theorem evaluate_characterised (b : jsarray) :
  board9 b →
  ∃ o, evaluate (Some b) = Normal o ∧
    lines = rows ++ columns ++ diagonals ∧
    (∀ p l, o = Win p l ↔
       first_complete b l ∧ p = arr_get b l.1.1 ∧ (p = JStr "X" ∨ p = JStr "O")) ∧
    ((∃ p l, o = Win p l) ↔
       ∃ l, l ∈ rows ++ columns ++ diagonals ∧ three_in_a_row b l) ∧
    (o = Draw ↔
       (∀ l, l ∈ rows ++ columns ++ diagonals → ¬ three_in_a_row b l) ∧
       no_empty_cell b) ∧
    (o = Undecided ↔
       (∀ l, l ∈ rows ++ columns ++ diagonals → ¬ three_in_a_row b l) ∧
       ¬ no_empty_cell b).
Proof.
  intros Hb. eexists. split; [apply evaluate_board|].
  split; [apply lines_order|].
  pose proof (arr_every_not_null_iff b Hb) as Hfull.
  assert (∀ l, first_complete b l →
            l ∈ rows ++ columns ++ diagonals ∧ three_in_a_row b l) as Hfirst.
  { intros l (pre & post & Heq & _ & Hl). split; [|done].
    rewrite Heq. apply elem_of_app. right. by left. }
  assert (∀ l, first_complete b l →
            arr_get b l.1.1 = JStr "X" ∨ arr_get b l.1.1 = JStr "O") as Hmark.
  { intros l Hl. destruct (Hfirst l Hl) as [Hin Hrow].
    pose proof lines_in_range as Hr. rewrite lines_order in Hr.
    rewrite Forall_forall in Hr. specialize (Hr l Hin).
    destruct l as [[x y] z]. destruct Hr as (Hx & _). destruct Hrow as (Hne & _).
    simpl. destruct (board9_cell b x Hb Hx) as [? | [? | ?]]; [done | by left | by right]. }
  destruct (calculateWinner_loop b lines) as [w|] eqn:Hw.
  - pose proof Hw as [Hfc Hwin]%(winner_first_complete b w Hb).
    assert (∀ l, first_complete b l → l = win_line w) as Huniq.
    { intros l Hl.
      assert (calculateWinner_loop b lines = Some (mkWinnerObj (arr_get b l.1.1) l)) as E1
        by by apply winner_first_complete.
      rewrite E1 in Hw. by injection Hw as <-. }
    split; [|split; [|split]].
    + intros p l. split.
      * intros [= <- <-]. rewrite Hwin. repeat split; [done|]. by apply Hmark.
      * intros (Hl & -> & _). rewrite (Huniq l Hl), <- Hwin. done.
    + split; [intros _; exists (win_line w); by apply Hfirst | intros _; eauto].
    + split; [done|]. intros [Hno _]. destruct (Hfirst _ Hfc) as [Hin Hrow].
      destruct (Hno _ Hin Hrow).
    + split; [done|]. intros [Hno _]. destruct (Hfirst _ Hfc) as [Hin Hrow].
      destruct (Hno _ Hin Hrow).
  - assert (∀ l, l ∈ rows ++ columns ++ diagonals → ¬ three_in_a_row b l) as Hno
      by by apply no_winner_no_line.
    split; [|split; [|split]].
    + intros p l. split; [by destruct (arr_every_not_null b)|].
      intros (Hl & _). destruct (Hfirst l Hl) as [Hin Hrow]. destruct (Hno l Hin Hrow).
    + split.
      * intros (p & l & Ho). by destruct (arr_every_not_null b).
      * intros (l & Hin & Hrow). destruct (Hno l Hin Hrow).
    + destruct (arr_every_not_null b) eqn:E.
      * split; [intros _; split; [done | by apply Hfull] | done].
      * split; [done|]. intros [_ Hf]. apply Hfull in Hf. congruence.
    + destruct (arr_every_not_null b) eqn:E.
      * split; [done|]. intros [_ Hf]. destruct Hf. by apply Hfull.
      * split; [|done]. intros _. split; [done|]. intros Hf. apply Hfull in Hf. congruence.
Qed.

(** ** Accepted moves *)

Lemma click_result_changes (s : State) (cur : jsarray) (i : Z) :
  click_result s cur i ≠ s.
Proof. intros H. apply (f_equal stepNumber) in H. simpl in H. lia. Qed.

Lemma accepted_iff (s : State) (cur : jsarray) (i : Z) (s' : State) :
  Inv s →
  history s !! Z.to_nat (stepNumber s) = Some cur →
  accepted s i s' ↔
    calculateWinner_loop cur lines = None ∧
    truthy (arr_get cur i) = false ∧
    s' = click_result s cur i.
Proof.
  intros HI Hcur. unfold accepted.
  assert (board9 cur) as Hb by (eapply Forall_lookup_1; [apply HI | done]).
  rewrite (dispatch_click s cur) by (done || apply HI).
  destruct (calculateWinner_loop cur lines) as [w|].
  { split; [intros [[= <-] Hne]; done | intros (? & _); done]. }
  destruct (truthy (arr_get cur i)).
  { split; [intros [[= <-] Hne]; done | intros (_ & ? & _); done]. }
  split.
  - intros [[= <-] _]. done.
  - intros (_ & _ & ->). split; [done | apply click_result_changes].
Qed.

Lemma undecided_view_of (cur : jsarray) :
  outcome (view_of cur) = Undecided →
  calculateWinner_loop cur lines = None.
Proof.
  rewrite outcome_view_of. by destruct (calculateWinner_loop cur lines).
Qed.

Lemma empty_cell_undecided (cur : jsarray) (i : Z) :
  board9 cur → 0 ≤ i ≤ 8 → arr_get cur i = JNull →
  calculateWinner_loop cur lines = None →
  outcome (view_of cur) = Undecided.
Proof.
  intros Hb Hi Hnull Hw. rewrite outcome_view_of, Hw.
  destruct (arr_every_not_null cur) eqn:E; [|done].
  apply (arr_every_not_null_iff cur Hb) in E. destruct (E i Hi Hnull).
Qed.

Lemma click_accepts (s : State) (cur : jsarray) (i : Z) :
  Inv s →
  history s !! Z.to_nat (stepNumber s) = Some cur →
  calculateWinner_loop cur lines = None →
  arr_get cur i = JNull →
  dispatch s (Click i) = Normal (click_result s cur i).
Proof.
  intros HI Hcur Hw Hnull.
  assert (board9 cur) as Hb by (eapply Forall_lookup_1; [apply HI | done]).
  rewrite (dispatch_click s cur) by (done || apply HI).
  by rewrite Hw, Hnull.
Qed.

Lemma mark_of_turn (s : State) :
  Inv s → (if xIsNext s then "X" else "O") = mark_of_step (stepNumber s).
Proof. intros HI. unfold mark_of_step. by rewrite (inv_turn s HI). Qed.

(** C3: in a reachable state whose current board (at step [c]) is
    undecided, a click on an empty square 0..8 is accepted: the history
    becomes the entries [0..c] followed by the one new board, and the
    step becomes [c + 1].  In particular, from a reachable state at step
    3, jumping to step 1 and then clicking an empty square leaves a
    history of exactly three entries: the old entries 0 and 1 and the new
    board, the former entries 2 and 3 being dropped. *)
Theorem accepted_move_truncates_history (s : State) :
  reachable s →
  (∀ i v cur,
     render s = Normal v → currentSquares v = Some cur →
     outcome v = Undecided → 0 ≤ i ≤ 8 → arr_get cur i = JNull →
     ∃ s' b',
       accepted s i s' ∧
       b' = arr_set cur i (JStr (mark_of_step (stepNumber s))) ∧
       history s' = take (S (Z.to_nat (stepNumber s))) (history s) ++ [b'] ∧
       stepNumber s' = stepNumber s + 1) ∧
  (stepNumber s = 3 →
   ∃ s1 b0 b1 b2 b3 rest,
     history s = b0 :: b1 :: b2 :: b3 :: rest ∧
     dispatch s (Jump 1) = Normal s1 ∧
     ∀ j, 0 ≤ j ≤ 8 → arr_get b1 j = JNull →
       ∃ s2 b',
         accepted s1 j s2 ∧
         history s2 = [b0; b1; b'] ∧
         length (history s2) = 3%nat ∧
         stepNumber s2 = 2).
Proof.
  intros Hr. pose proof (reachable_Inv s Hr) as HI. split.
  - intros i v cur Hv Hcur Hund Hi Hnull.
    destruct (render_reachable s v cur HI Hv Hcur) as (Hlook & Hb & ->).
    apply undecided_view_of in Hund.
    exists (click_result s cur i). eexists. split; [|split; [done|]].
    + apply (accepted_iff s cur); [done..|]. by rewrite Hund, Hnull.
    + unfold click_result. simpl. by rewrite mark_of_turn.
  - intros H3. pose proof HI as [Hstep _ _ Hboards Hmoves].
    destruct (history s) as [|b0 [|b1 [|b2 [|b3 rest]]]] eqn:Hh;
      simpl in Hstep; try lia.
    exists (mkState (history s) 1 false), b0, b1, b2, b3, rest.
    split; [done|]. split.
    { rewrite dispatch_jump by by apply Inv_render. done. }
    intros j Hj Hnull.
    assert (Inv (mkState (history s) 1 false)) as HI1.
    { apply (Inv_jump s 1 HI). rewrite Hh. simpl. lia. }
    assert (calculateWinner_loop b1 lines = None) as Hw.
    { by destruct (Hmoves 1%nat b1 b2). }
    exists (click_result (mkState (history s) 1 false) b1 j). eexists.
    split; [|unfold click_result; simpl; by rewrite Hh].
    apply (accepted_iff _ b1); [done | by rewrite Hh |]. by rewrite Hw, Hnull.
Qed.

(** C4: in every reachable state the turn flag equals the parity of the
    step, and stays so after every event (click, reset, jump); hence an
    accepted click at step [k] writes ["X"] into the clicked square when
    [k] is even and ["O"] when [k] is odd. *)
Theorem mark_follows_step_parity (s : State) :
  reachable s →
  xIsNext s = Z.even (stepNumber s) ∧
  (∀ ev s', offered s ev = true → dispatch s ev = Normal s' →
     xIsNext s' = Z.even (stepNumber s')) ∧
  (∀ i s', 0 ≤ i ≤ 8 → accepted s i s' →
     ∃ cur b',
       js_index (history s) (stepNumber s) = Some cur ∧
       js_index (history s') (stepNumber s') = Some b' ∧
       arr_get cur i = JNull ∧
       b' = arr_set cur i (JStr (if Z.even (stepNumber s) then "X" else "O")) ∧
       arr_get b' i = JStr (if Z.even (stepNumber s) then "X" else "O")).
Proof.
  intros Hr. pose proof (reachable_Inv s Hr) as HI.
  split; [apply HI|]. split.
  - intros ev s' Hoff Hd. by apply (Inv_dispatch s ev s' HI Hoff Hd).
  - intros i s' Hi Hacc.
    destruct (Inv_current s HI) as (cur & Hcur & Hb).
    destruct (proj1 (accepted_iff s cur i s' HI Hcur) Hacc) as (Hw & Ht & Heq).
    subst s'.
    assert (arr_get cur i = JNull) as Hnull.
    { apply is_cell_truthy; [by apply board9_cell | done]. }
    pose proof (inv_step s HI) as Hstep.
    exists cur. eexists. split; [by rewrite js_index_nonneg by lia|].
    split; [|split; [done|]].
    + unfold click_result. simpl. rewrite js_index_nonneg by lia.
      rewrite lookup_app_r by (rewrite length_take_S by lia; lia).
      rewrite length_take_S by lia.
      replace (Z.to_nat (stepNumber s + 1) - S (Z.to_nat (stepNumber s)))%nat
        with 0%nat by lia.
      simpl. by rewrite (inv_turn s HI).
    + split; [done|]. rewrite arr_set_small by (done || apply Hb).
      rewrite arr_get_small by done. simpl.
      rewrite list_lookup_insert_eq; [done|]. destruct Hb as (-> & _). lia.
Qed.

(** C5: in a reachable state, after any accepted click (whatever the
    index passed) the history has exactly [stepNumber + 1] entries; and a
    reset, which has no precondition, gives the state whose history is
    the single all-empty board and whose step is 0. *)
Theorem history_length_after_move_and_reset (s : State) :
  reachable s →
  (∀ i s', accepted s i s' →
     Z.of_nat (length (history s')) = stepNumber s' + 1) ∧
  (∃ s0,
     dispatch s Reset = Normal s0 ∧
     resetGame s = s0 ∧
     history s0 = [JsArray (replicate 9 JNull) ∅] ∧
     length (history s0) = 1%nat ∧
     stepNumber s0 = 0).
Proof.
  intros Hr. pose proof (reachable_Inv s Hr) as HI. split.
  - intros i s' Hacc.
    destruct (Inv_current s HI) as (cur & Hcur & Hb).
    destruct (proj1 (accepted_iff s cur i s' HI Hcur) Hacc) as (_ & _ & Heq).
    subst s'.
    pose proof (inv_step s HI) as Hstep.
    unfold click_result. simpl.
    rewrite length_app, length_take_S by lia. simpl. lia.
  - exists initialState. rewrite dispatch_reset by by apply Inv_render. done.
Qed.

(** ** Inputs the interface never offers *)

Lemma arr_get_outside (b : jsarray) (i : Z) :
  board9 b → i < 0 ∨ 8 < i → arr_get b i = JUndefined.
Proof.
  intros (Hlen & _ & Hp) Hi. unfold arr_get.
  destruct (is_array_index i) eqn:E.
  - unfold is_array_index in E. apply andb_true_iff in E as [E%Z.leb_le _].
    rewrite lookup_ge_None_2; [done | lia].
  - by rewrite Hp, lookup_empty.
Qed.

Lemma render_TypeError (s : State) :
  stepNumber s < 0 ∨ Z.of_nat (length (history s)) ≤ stepNumber s →
  render s = TypeError.
Proof.
  intros H. unfold render.
  by rewrite (proj2 (js_index_None (history s) (stepNumber s)) H).
Qed.

(** C6 (as stated, refuted): from the fresh game a click with index 9, and
    one with index -1, both complete and both change the state: a new
    entry is appended (ten squares long for index 9, with a property
    [-1] for index -1) and the step advances. *)
Lemma out_of_range_click_changes_state :
  reachable initialState ∧
  dispatch initialState (Click 9) =
    Normal (mkState [emptyBoard; JsArray (replicate 9 JNull ++ [JStr "X"]) ∅] 1 false) ∧
  dispatch initialState (Click 9) ≠ Normal initialState ∧
  dispatch initialState (Click (-1)) =
    Normal (mkState [emptyBoard; JsArray (replicate 9 JNull) {[ -1 := JStr "X" ]}] 1 false) ∧
  dispatch initialState (Click (-1)) ≠ Normal initialState.
Proof.
  split; [constructor|].
  split; [by vm_compute|]. split; [by vm_compute|].
  split; [by vm_compute|]. by vm_compute.
Qed.

(** *** Clicks with any index, in any state the engine can be in *)

Lemma dispatch_click_any (s : State) (cur : jsarray) (i : Z) :
  0 ≤ stepNumber s →
  history s !! Z.to_nat (stepNumber s) = Some cur →
  dispatch s (Click i) =
    Normal (match calculateWinner_loop cur lines with
            | Some _ => s
            | None => if truthy (arr_get cur i) then s else copy_click_result s cur i
            end).
Proof.
  intros Hs Hcur.
  assert (0 ≤ stepNumber s < Z.of_nat (length (history s))) as Hrange.
  { apply lookup_lt_Some in Hcur. lia. }
  unfold dispatch.
  assert (handle s (Click i) = handleClick s (view_of cur) i) as ->.
  { unfold handle. by rewrite (render_current s cur). }
  unfold handleClick. rewrite js_slice0_in_range by done.
  rewrite length_take_S by lia.
  replace (Z.of_nat (S (Z.to_nat (stepNumber s))) - 1) with (stepNumber s) by lia.
  rewrite js_index_nonneg by lia.
  rewrite lookup_take_lt by lia. rewrite Hcur.
  unfold view_of.
  destruct (calculateWinner_loop cur lines) as [w|]; simpl.
  { f_equal. apply stepNumber_effect_same. by left. }
  destruct (truthy (arr_get cur i)); simpl.
  { f_equal. apply stepNumber_effect_same. by left. }
  f_equal. rewrite stepNumber_effect_same by (right; left; simpl; lia).
  unfold copy_click_result. do 2 f_equal. lia.
Qed.

Lemma engine_reachable_inv (s : State) :
  engine_reachable s →
  0 ≤ stepNumber s < Z.of_nat (length (history s)) ∧
  xIsNext s = Z.even (stepNumber s).
Proof.
  induction 1 as [|s ev s' _ [Hstep Hturn] Hd Hrender]; [by split|].
  split; [by apply render_completes_iff|].
  destruct (lookup_lt_is_Some_2 (history s) (Z.to_nat (stepNumber s))) as [cur Hcur];
    [lia|].
  destruct ev as [i| |move].
  - rewrite (dispatch_click_any s cur) in Hd by (done || lia). injection Hd as <-.
    destruct (calculateWinner_loop cur lines); [done|].
    destruct (truthy (arr_get cur i)); [done|]. simpl. rewrite Hturn.
    replace (stepNumber s + 1) with (Z.succ (stepNumber s)) by lia.
    by rewrite Z.even_succ, Z.negb_even.
  - rewrite dispatch_reset in Hd by by apply render_completes_iff.
    by injection Hd as <-.
  - rewrite dispatch_jump in Hd by by apply render_completes_iff.
    by injection Hd as <-.
Qed.

(** The states reached through the events of the interface are among
    them. *)
Lemma reachable_engine_reachable (s : State) :
  reachable s → engine_reachable s.
Proof.
  induction 1 as [|s ev s' Hr IH Hoff Hd]; [constructor|].
  apply (engine_reachable_step s ev s' IH Hd).
  apply Inv_render, reachable_Inv. by eapply reachable_step.
Qed.

(** C6 (amended): in every state the engine can reach through clicks,
    jumps and resets with any integer arguments while the component
    renders, a click with an index outside 0..8 raises no fault and
    alters none of the entries [0..step].  It leaves the state unchanged
    when the current board has a winning line or already holds a truthy
    value under that index, which only an earlier click outside 0..8 can
    have put there (in the states reached through the interface the
    value read is always [undefined]).  Otherwise the click is accepted:
    the history becomes the entries [0..step] followed by one new entry,
    the copy of the current board with the mark written under that
    index, and the step advances by one. *)
Theorem out_of_range_click (s : State) (i : Z) :
  engine_reachable s →
  i < 0 ∨ 8 < i →
  ∃ cur s',
    js_index (history s) (stepNumber s) = Some cur ∧
    dispatch s (Click i) = Normal s' ∧
    completes (render s') ∧
    (∀ k : nat, (k ≤ Z.to_nat (stepNumber s))%nat →
       history s' !! k = history s !! k) ∧
    ((∃ p l, evaluate (Some cur) = Normal (Win p l)) ∨ truthy (arr_get cur i) = true →
       s' = s) ∧
    ((∀ p l, evaluate (Some cur) ≠ Normal (Win p l)) →
     truthy (arr_get cur i) = false →
       history s' =
         take (S (Z.to_nat (stepNumber s))) (history s)
           ++ [arr_set (arr_slice cur) i (JStr (mark_of_step (stepNumber s)))] ∧
       stepNumber s' = stepNumber s + 1) ∧
    (reachable s → arr_get cur i = JUndefined ∧ arr_slice cur = cur).
Proof.
  intros Hr Hi. destruct (engine_reachable_inv s Hr) as [Hstep Hturn].
  destruct (lookup_lt_is_Some_2 (history s) (Z.to_nat (stepNumber s))) as [cur Hcur];
    [lia|].
  exists cur. eexists.
  split; [by rewrite js_index_nonneg by lia|].
  split; [apply (dispatch_click_any s cur); (done || lia)|].
  assert ((if xIsNext s then "X" else "O") = mark_of_step (stepNumber s)) as Hmark
    by (unfold mark_of_step; by rewrite Hturn).
  assert (completes (render s)) as Hrender by by apply render_completes_iff.
  assert (completes (render (copy_click_result s cur i))) as Hrender'.
  { apply render_completes_iff. unfold copy_click_result. simpl.
    rewrite length_app, length_take_S by lia. simpl. lia. }
  assert (∀ k : nat, (k ≤ Z.to_nat (stepNumber s))%nat →
            history (copy_click_result s cur i) !! k = history s !! k) as Hprefix.
  { intros k Hk. unfold copy_click_result. simpl.
    rewrite lookup_app_l by (rewrite length_take_S by lia; lia).
    by rewrite lookup_take_lt by lia. }
  assert (reachable s → arr_get cur i = JUndefined ∧ arr_slice cur = cur) as Hui.
  { intros Hr'. pose proof (reachable_Inv s Hr') as HI.
    assert (board9 cur) as Hb by (eapply Forall_lookup_1; [apply HI | done]).
    split; [by apply arr_get_outside | by apply arr_slice_board9]. }
  rewrite evaluate_board.
  destruct (calculateWinner_loop cur lines) as [w|].
  { split; [done|]. split; [done|]. split; [done|]. split; [|done].
    intros Hno. by destruct (Hno (winner w) (win_line w)). }
  destruct (truthy (arr_get cur i)) eqn:Ht.
  { split; [done|]. split; [done|]. split; [done|]. split; [done | done]. }
  split; [done|]. split; [done|]. split; [|split; [|done]].
  - intros [(p & l & Hpl) | ?]; [|done]. by destruct (arr_every_not_null cur).
  - intros _ _. unfold copy_click_result. simpl. by rewrite Hmark.
Qed.

(** C7 (as stated, refuted): from the fresh game a jump to index 5, and
    one to index -1, both complete, both change the step to that index,
    and the render of the resulting state throws. *)
Lemma out_of_range_jump_changes_state :
  reachable initialState ∧
  dispatch initialState (Jump 5) = Normal (mkState [emptyBoard] 5 false) ∧
  dispatch initialState (Jump 5) ≠ Normal initialState ∧
  render (mkState [emptyBoard] 5 false) = TypeError ∧
  status (mkState [emptyBoard] 5 false) = TypeError ∧
  dispatch initialState (Jump (-1)) = Normal (mkState [emptyBoard] (-1) false) ∧
  dispatch initialState (Jump (-1)) ≠ Normal initialState ∧
  render (mkState [emptyBoard] (-1) false) = TypeError ∧
  status (mkState [emptyBoard] (-1) false) = TypeError.
Proof.
  split; [constructor|]. repeat split; by vm_compute.
Qed.

(** C7 (amended): in every state the engine can reach while the
    component renders, a jump to an index outside
    [0, length history - 1] raises no fault in the handler and leaves the
    history untouched, but it is not rejected or clamped: the step
    becomes that index, the board at the step is then undefined, and the
    next render throws, so that neither the status nor the winning line
    is produced. *)
Theorem out_of_range_jump (s : State) (move : Z) :
  engine_reachable s →
  move < 0 ∨ Z.of_nat (length (history s)) ≤ move →
  ∃ s',
    dispatch s (Jump move) = Normal s' ∧
    jumpTo s move = s' ∧
    history s' = history s ∧
    stepNumber s' = move ∧
    s' ≠ s ∧
    js_index (history s') (stepNumber s') = None ∧
    render s' = TypeError ∧
    status s' = TypeError ∧
    winningLine s' = TypeError.
Proof.
  intros Hr Hm. destruct (engine_reachable_inv s Hr) as [Hstep Hturn].
  assert (completes (render s)) as Hrender0 by by apply render_completes_iff.
  eexists. split; [by apply dispatch_jump|]. simpl.
  assert (render (mkState (history s) move (Z.even move)) = TypeError) as Hrender
    by by apply render_TypeError.
  split; [unfold jumpTo; by rewrite rem2_even|].
  repeat split; try done.
  - intros Heq. apply (f_equal stepNumber) in Heq. simpl in Heq. lia.
  - by apply js_index_None.
  - unfold status. by rewrite Hrender.
  - unfold winningLine. by rewrite Hrender.
Qed.

(** ** Acceptance looks at the current board only *)

(** C10: in a reachable state a click on a square 0..8 is accepted
    exactly when the board at the current step is undecided and that
    square is empty -- nothing else of the history is consulted.  So a
    move is accepted after jumping back from a finished game: there is a
    reachable state with a won board later in the history in which a
    click is accepted. *)
Theorem acceptance_gated_on_current_board :
  (∀ s cur i,
     reachable s → 0 ≤ i ≤ 8 →
     js_index (history s) (stepNumber s) = Some cur →
     (∃ s', accepted s i s') ↔
     (evaluate (Some cur) = Normal Undecided ∧ arr_get cur i = JNull)) ∧
  (∃ s (k : nat) b p l i s',
     reachable s ∧
     stepNumber s < Z.of_nat k ∧
     history s !! k = Some b ∧
     evaluate (Some b) = Normal (Win p l) ∧
     0 ≤ i ≤ 8 ∧
     accepted s i s' ∧
     stepNumber s' = stepNumber s + 1).
Proof.
  split.
  - intros s cur i Hr Hi Hcur. pose proof (reachable_Inv s Hr) as HI.
    pose proof (inv_step s HI) as Hstep.
    rewrite js_index_nonneg in Hcur by lia.
    assert (board9 cur) as Hb by (eapply Forall_lookup_1; [apply HI | done]).
    rewrite evaluate_board. split.
    + intros [s' Hacc].
      destruct (proj1 (accepted_iff s cur i s' HI Hcur) Hacc) as (Hw & Ht & _).
      assert (arr_get cur i = JNull) as Hnull
        by (apply is_cell_truthy; [by apply board9_cell | done]).
      split; [|done]. rewrite Hw.
      destruct (arr_every_not_null cur) eqn:E; [|done].
      apply (arr_every_not_null_iff cur Hb) in E. destruct (E i Hi Hnull).
    + intros [Hund Hnull]. exists (click_result s cur i).
      apply (accepted_iff s cur i _ HI Hcur).
      rewrite Hnull. split; [|done].
      by destruct (calculateWinner_loop cur lines).
  - pose (evs := [Click 0; Click 3; Click 1; Click 4; Click 2; Jump 2]).
    destruct (run initialState evs) as [s|] eqn:Hrun; [|by vm_compute in Hrun].
    assert (reachable s) as Hr.
    { apply (reachable_run initialState evs); [constructor | by vm_compute | done]. }
    vm_compute in Hrun. injection Hrun as Hs.
    destruct (dispatch s (Click 8)) as [s'|] eqn:Hd;
      [|rewrite <- Hs in Hd; by vm_compute in Hd].
    exists s, 5%nat. eexists. exists (JStr "X"), (0, 1, 2), 8, s'.
    split; [done|]. rewrite <- Hs in Hd. vm_compute in Hd. injection Hd as Hs'.
    rewrite <- Hs. simpl. split; [lia|]. split; [reflexivity|].
    split; [by vm_compute|]. split; [lia|].
    rewrite <- Hs'. split; [|done].
    split; [by vm_compute|]. intros H. apply (f_equal stepNumber) in H. done.
Qed.

(** ** The status projection *)

Lemma count_marks_insert (l : list jsval) (j : nat) (v : jsval) :
  l !! j = Some JNull → v ≠ JNull →
  length (filter (λ square, square ≠ JNull) (<[j := v]> l)) =
  S (length (filter (λ square, square ≠ JNull) l)).
Proof.
  revert j. induction l as [|x l IH]; intros j Hj Hv; [done|].
  destruct j as [|j]; simpl in *.
  - injection Hj as ->. rewrite filter_cons_True by done.
    by rewrite filter_cons_False by (intros H; by apply H).
  - destruct (decide (x ≠ JNull)).
    + rewrite !filter_cons_True by done. simpl. by rewrite IH.
    + rewrite !filter_cons_False by done. by rewrite IH.
Qed.

Lemma count_marks_placed (m : string) (j : Z) (b b' : jsarray) :
  board9 b → placed m j b b' → count_marks b' = S (count_marks b).
Proof.
  intros Hb (Hj & Hnull & ->). pose proof Hb as (Hlen & _ & _).
  rewrite arr_set_small by done. rewrite arr_get_small in Hnull by done.
  unfold count_marks. simpl. apply count_marks_insert; [|done].
  destruct (elems b !! Z.to_nat j) as [v|] eqn:Hv; simpl in Hnull; [by subst|done].
Qed.

Lemma Inv_count_marks (s : State) (k : nat) (b : jsarray) :
  Inv s → history s !! k = Some b → count_marks b = k.
Proof.
  intros HI. revert b. induction k as [|k IH]; intros b Hk.
  - rewrite (inv_first s HI) in Hk. by injection Hk as <-.
  - destruct (lookup_lt_is_Some_2 (history s) k) as [b0 Hb0].
    { apply lookup_lt_Some in Hk. lia. }
    destruct (inv_moves s HI k b0 b Hb0 Hk) as (_ & j & Hplaced).
    rewrite (count_marks_placed (mark_of_step (Z.of_nat k)) j b0 b);
      [by rewrite (IH b0) | | done].
    eapply Forall_lookup_1; [apply HI | done].
Qed.

Lemma even_of_nat (n : nat) : Z.even (Z.of_nat n) = Nat.even n.
Proof.
  induction n as [|n IH]; [done|].
  rewrite Nat2Z.inj_succ, Z.even_succ, Nat.even_succ.
  by rewrite <- Z.negb_even, <- Nat.negb_even, IH.
Qed.

Lemma status_reachable (s : State) (cur : jsarray) :
  Inv s → history s !! Z.to_nat (stepNumber s) = Some cur →
  status s = Normal (status_of_board cur).
Proof.
  intros HI Hcur. pose proof (inv_step s HI) as Hstep.
  unfold status. rewrite (render_current s cur) by (done || lia).
  unfold status_of_board, view_of. simpl. do 2 f_equal.
  rewrite (inv_turn s HI), (Inv_count_marks s _ cur HI Hcur).
  by rewrite <- even_of_nat, Z2Nat.id by lia.
Qed.

Lemma winner_is_mark (b : jsarray) (w : WinnerObj) :
  board9 b → calculateWinner_loop b lines = Some w →
  winner w = JStr "X" ∨ winner w = JStr "O".
Proof.
  intros Hb Hw. apply calculateWinner_loop_Some in Hw as (pre & post & Heq & _ & Hl & Hwin).
  pose proof lines_in_range as Hr. rewrite Heq in Hr.
  apply Forall_app in Hr as [_ [Hr _]%Forall_cons].
  destruct (win_line w) as [[x y] z]. destruct Hr as (Hx & _).
  simpl in Hwin. rewrite Hwin. unfold line_wins in Hl.
  apply andb_true_iff in Hl as [[Ht _]%andb_true_iff _].
  destruct (board9_cell b x Hb Hx) as [E | [E | E]]; rewrite E in *; auto. done.
Qed.

Lemma status_text_of_board (b : jsarray) :
  board9 b →
  textContent (status_of_board b) =
    match calculateWinner_loop b lines with
    | Some w => "Winner: " +:+ jsx_text (winner w) +:+ " 🎉"
    | None =>
        if arr_every_not_null b then "It's a draw! 🤝"
        else "Next player: " +:+ (if Nat.even (count_marks b) then "X" else "O")
    end.
Proof.
  intros Hb. unfold status_of_board.
  destruct (calculateWinner_loop b lines) as [w|] eqn:Hw; simpl.
  - by destruct (winner_is_mark b w Hb Hw) as [-> | ->].
  - unfold GameStatus. simpl. by destruct (arr_every_not_null b).
Qed.

(** C9 (as stated, refuted): after the moves 0, 3, 1, 4, 2 from the fresh
    game the status text is "Winner: X" followed by an emoji, which is
    none of the texts "Win by <player>", "Draw", "Next turn: <player>". *)
Lemma status_text_differs :
  ∃ s e,
    run initialState [Click 0; Click 3; Click 1; Click 4; Click 2] = Normal s ∧
    status s = Normal e ∧
    textContent e = "Winner: X 🎉" ∧
    textContent e ≠ "Win by PlayerA" ∧
    (∀ player, textContent e ≠ "Win by " +:+ player) ∧
    textContent e ≠ "Draw" ∧
    (∀ player, textContent e ≠ "Next turn: " +:+ player).
Proof.
  do 2 eexists. split; [by vm_compute|]. split; [by vm_compute|].
  simpl. repeat split; try done; intros player H; simpl in H; discriminate.
Qed.

(** C9 (amended): in every reachable state the status is a function of
    the board at the current step alone, and its text is, according to
    the outcome of that board, "Winner: <mark>" followed by the party
    emoji, the draw text "It's a draw!" followed by the handshake emoji,
    or "Next player: <mark>", where the mark is "X" or "O"; the winning
    line is exposed exactly when the outcome is a win.  The moves
    0, 3, 1, 4, 2 from the fresh game give a win of "X" on the line
    (0, 1, 2) after the fifth move, with the text "Winner: X" and the
    emoji. *)
Theorem status_projection (s : State) :
  reachable s →
  (∃ cur o,
     js_index (history s) (stepNumber s) = Some cur ∧
     evaluate (Some cur) = Normal o ∧
     status s = Normal (status_of_board cur) ∧
     textContent (status_of_board cur) =
       match o with
       | Win p _ => "Winner: " +:+ jsx_text p +:+ " 🎉"
       | Draw => "It's a draw! 🤝"
       | Undecided =>
           "Next player: " +:+ (if Nat.even (count_marks cur) then "X" else "O")
       end ∧
     (∀ p l, o = Win p l → p = JStr "X" ∨ p = JStr "O") ∧
     winningLine s =
       Normal (match o with Win _ l => Some l | Draw | Undecided => None end)) ∧
  (∃ s5 e,
     run initialState [Click 0; Click 3; Click 1; Click 4; Click 2] = Normal s5 ∧
     reachable s5 ∧
     stepNumber s5 = 5 ∧
     evaluate (js_index (history s5) (stepNumber s5)) =
       Normal (Win (JStr "X") (0, 1, 2)) ∧
     status s5 = Normal e ∧
     textContent e = "Winner: X 🎉" ∧
     winningLine s5 = Normal (Some (0, 1, 2))).
Proof.
  intros Hr. pose proof (reachable_Inv s Hr) as HI. split.
  - destruct (Inv_current s HI) as (cur & Hcur & Hb).
    pose proof (inv_step s HI) as Hstep.
    exists cur. eexists.
    split; [by rewrite js_index_nonneg by lia|].
    split; [apply evaluate_board|].
    split; [by apply status_reachable|].
    rewrite (status_text_of_board cur Hb).
    unfold winningLine. rewrite (render_current s cur) by (done || lia).
    unfold view_of. simpl.
    destruct (calculateWinner_loop cur lines) as [w|] eqn:Hw.
    + split; [done|]. split; [|done]. intros p l [= <- _]. by apply (winner_is_mark cur).
    + destruct (arr_every_not_null cur); by repeat split.
  - pose (evs := [Click 0; Click 3; Click 1; Click 4; Click 2]).
    destruct (run initialState evs) as [s5|] eqn:Hrun; [|by vm_compute in Hrun].
    assert (reachable s5) as Hr5.
    { apply (reachable_run initialState evs); [constructor | by vm_compute | done]. }
    exists s5. eexists. split; [done|]. split; [done|].
    vm_compute in Hrun. injection Hrun as <-.
    repeat split; by vm_compute.
Qed.

(** ** The store: no object is written after the handler that made it *)

Lemma alloc_fresh (σ : gmap loc jsarray) : σ !! fresh (dom σ) = None.
Proof. apply not_elem_of_dom, is_fresh. Qed.

Lemma objects_unchanged_refl (σ : gmap loc jsarray) : objects_unchanged σ σ.
Proof. by intros l a. Qed.

Lemma objects_unchanged_alloc (σ : gmap loc jsarray) (a : jsarray) :
  objects_unchanged σ (alloc σ a).2.
Proof.
  intros l b Hl. simpl. rewrite lookup_insert_ne; [done|].
  intros <-. by rewrite alloc_fresh in Hl.
Qed.

Lemma objects_unchanged_alloc_write (σ : gmap loc jsarray) (a : jsarray) (i : Z) (v : jsval) :
  objects_unchanged σ (store_write (alloc σ a).2 (alloc σ a).1 i v).
Proof.
  intros l b Hl. unfold store_write. simpl.
  assert (fresh (dom σ) ≠ l) as Hne by (intros <-; by rewrite alloc_fresh in Hl).
  by rewrite lookup_alter_ne, lookup_insert_ne.
Qed.

Lemma alloc_write_lookup (σ : gmap loc jsarray) (a : jsarray) (i : Z) (v : jsval) :
  store_write (alloc σ a).2 (alloc σ a).1 i v !! (alloc σ a).1 = Some (arr_set a i v).
Proof. unfold store_write. simpl. by rewrite lookup_alter_eq, lookup_insert_eq. Qed.

Lemma ref_effect_store (prev rs : RefState) :
  store (ref_stepNumber_effect prev rs) = store rs.
Proof.
  unfold ref_stepNumber_effect. destruct (ref_render rs); [|done].
  by destruct (negb _ && _).
Qed.

Lemma ref_handleClick_objects (rs : RefState) (v : View) (i : Z) (rs' : RefState) :
  ref_handleClick rs v i = Normal rs' → objects_unchanged (store rs) (store rs').
Proof.
  unfold ref_handleClick.
  destruct (winnerObj v); [intros [= <-]; apply objects_unchanged_refl|].
  destruct (get_prop _ i) as [occupied|]; [simpl|done].
  destruct (truthy occupied); [intros [= <-]; apply objects_unchanged_refl|].
  destruct (call_slice _) as [copy|]; [simpl|done].
  intros [= <-]. simpl. apply objects_unchanged_alloc_write.
Qed.

Lemma ref_dispatch_objects (rs : RefState) (ev : Event) (rs' : RefState) :
  ref_dispatch rs ev = Normal rs' → objects_unchanged (store rs) (store rs').
Proof.
  unfold ref_dispatch, ref_handle.
  destruct (ref_render rs) as [v|]; [simpl|done].
  destruct ev as [i| |move]; simpl.
  - destruct (ref_handleClick rs v i) as [rs1|] eqn:Hc; [simpl|done].
    intros [= <-]. rewrite ref_effect_store. by eapply ref_handleClick_objects.
  - intros [= <-]. rewrite ref_effect_store. apply objects_unchanged_alloc.
  - intros [= <-]. rewrite ref_effect_store. apply objects_unchanged_refl.
Qed.

(** ** The store model denotes the model on values *)

Lemma denote_index (σ : gmap loc jsarray) (refs : list loc) (bs : list jsarray) (n : Z) :
  Forall2 (λ l b, σ !! l = Some b) refs bs →
  deref σ (js_index refs n) = js_index bs n.
Proof.
  intros H. unfold js_index. destruct (0 <=? n); [|done].
  rewrite Forall2_lookup in H. specialize (H (Z.to_nat n)).
  destruct H as [l b Hlb|]; [done | done].
Qed.

Lemma denote_slice (σ : gmap loc jsarray) (refs : list loc) (bs : list jsarray) (e : Z) :
  Forall2 (λ l b, σ !! l = Some b) refs bs →
  Forall2 (λ l b, σ !! l = Some b) (js_slice0 refs e) (js_slice0 bs e).
Proof.
  intros H. unfold js_slice0. rewrite (Forall2_length _ _ _ H).
  by apply Forall2_take.
Qed.

Lemma denote_grow (σ σ' : gmap loc jsarray) (refs : list loc) (bs : list jsarray) :
  objects_unchanged σ σ' →
  Forall2 (λ l b, σ !! l = Some b) refs bs →
  Forall2 (λ l b, σ' !! l = Some b) refs bs.
Proof. intros Hσ H. eapply Forall2_impl; [done|]. intros l b. apply Hσ. Qed.

Lemma ref_render_denotes (rs : RefState) (s : State) :
  represents rs s → ref_render rs = render s.
Proof.
  intros (Hh & Hs & _). unfold ref_render, render.
  by rewrite Hs, (denote_index _ _ (history s)).
Qed.

Lemma ref_handleClick_denotes (rs : RefState) (s : State) (v : View) (i : Z) :
  represents rs s →
  crel represents (ref_handleClick rs v i) (handleClick s v i).
Proof.
  intros Hrep. pose proof Hrep as (Hh & Hs & Hx).
  unfold ref_handleClick, handleClick. rewrite Hs, Hx.
  pose proof (denote_slice _ _ _ (stepNumber s + 1) Hh) as Hup.
  set (upR := js_slice0 (history_refs rs) (stepNumber s + 1)) in *.
  set (upS := js_slice0 (history s) (stepNumber s + 1)) in *.
  rewrite (Forall2_length _ _ _ Hup).
  rewrite (denote_index _ _ upS _ Hup).
  destruct (winnerObj v); [done|].
  destruct (js_index upS (Z.of_nat (length upS) - 1)) as [cur|]; [simpl|done].
  destruct (truthy (arr_get cur i)); [done|]. simpl.
  split; [|done]. simpl. apply Forall2_app.
  - eapply denote_grow; [|done].
    apply (objects_unchanged_alloc_write (store rs) (arr_slice cur)).
  - apply Forall2_cons; split; [|constructor].
    apply (alloc_write_lookup (store rs) (arr_slice cur)).
Qed.

Lemma ref_effect_denotes (prev rs : RefState) (sprev s : State) :
  represents prev sprev → represents rs s →
  represents (ref_stepNumber_effect prev rs) (stepNumber_effect sprev s).
Proof.
  intros (_ & Hp & _) Hrep. pose proof Hrep as (Hh & Hs & Hx).
  unfold ref_stepNumber_effect, stepNumber_effect.
  rewrite (ref_render_denotes rs s Hrep), Hp, Hs.
  destruct (render s); [|done].
  destruct (negb _ && _); [|done]. by split.
Qed.

Lemma ref_dispatch_denotes (rs : RefState) (s : State) (ev : Event) :
  represents rs s →
  crel represents (ref_dispatch rs ev) (dispatch s ev).
Proof.
  intros Hrep. pose proof Hrep as (Hh & Hs & Hx).
  unfold ref_dispatch, dispatch, ref_handle, handle.
  rewrite (ref_render_denotes rs s Hrep).
  destruct (render s) as [v|]; [simpl|done].
  destruct ev as [i| |move]; simpl.
  - pose proof (ref_handleClick_denotes rs s v i Hrep) as Hc.
    destruct (ref_handleClick rs v i) as [rs1|], (handleClick s v i) as [s1|];
      simpl in *; try done.
    by apply ref_effect_denotes.
  - apply ref_effect_denotes; [done|].
    split; [|done]. simpl. apply Forall2_cons; split; [|constructor].
    by rewrite lookup_insert_eq.
  - apply ref_effect_denotes; [done|]. by split.
Qed.

Lemma represents_initial : represents ref_initialState initialState.
Proof.
  split; [|done]. simpl. apply Forall2_cons; split; [|constructor].
  by rewrite lookup_insert_eq.
Qed.

Lemma reachable_represented (s : State) :
  reachable s → ∃ rs, represents rs s.
Proof.
  induction 1 as [|s ev s' _ [rs Hrep] _ Hd].
  - exists ref_initialState. apply represents_initial.
  - pose proof (ref_dispatch_denotes rs s ev Hrep) as Hsim.
    rewrite Hd in Hsim. destruct (ref_dispatch rs ev) as [rs'|]; [|done].
    by exists rs'.
Qed.

Lemma dispatch_entries (s : State) (ev : Event) (s' : State) (k : nat) (b : jsarray) :
  Inv s → dispatch s ev = Normal s' → history s' !! k = Some b →
  history s !! k = Some b ∨ S k = length (history s').
Proof.
  intros HI Hd Hk. pose proof (inv_step s HI) as Hstep.
  destruct ev as [i| |move].
  - destruct (Inv_current s HI) as (cur & Hcur & Hb).
    rewrite (dispatch_click s cur) in Hd by (done || lia). injection Hd as <-.
    destruct (calculateWinner_loop cur lines); [by left|].
    destruct (truthy (arr_get cur i)); [by left|].
    unfold click_result in *. simpl in *.
    rewrite length_app, length_take_S by lia. simpl.
    destruct (decide (k < S (Z.to_nat (stepNumber s)))%nat) as [Hlt|Hge].
    + left. rewrite lookup_app_l in Hk by (rewrite length_take_S by lia; lia).
      by rewrite lookup_take_lt in Hk by lia.
    + right. apply lookup_lt_Some in Hk.
      rewrite length_app, length_take_S in Hk by lia. simpl in Hk. lia.
  - rewrite dispatch_reset in Hd by by apply Inv_render. injection Hd as <-.
    destruct k; [by right | done].
  - rewrite dispatch_jump in Hd by by apply Inv_render. injection Hd as <-.
    by left.
Qed.

(** C8: in every reachable state the history is non-empty, its entry 0
    is the all-empty board, and each entry differs from the one before it
    by exactly one square changed from empty to "X" or "O".  No entry is
    mutated: every event (a click, a jump or a reset, with any argument)
    leaves each array object of the store with the contents it had, the
    objects behind the entries of the history included; on values, an
    entry of the new history is the old entry at that index or the last,
    newly created one. *)
Theorem history_entries_immutable (s : State) :
  reachable s →
  history s ≠ [] ∧
  history s !! 0%nat = Some (JsArray (replicate 9 JNull) ∅) ∧
  (∀ (i : nat) b b',
     history s !! i = Some b → history s !! S i = Some b' →
     differs_by_one_mark b b') ∧
  (∃ rs, represents rs s) ∧
  (∀ rs ev s',
     represents rs s → dispatch s ev = Normal s' →
     ∃ rs',
       ref_dispatch rs ev = Normal rs' ∧
       represents rs' s' ∧
       objects_unchanged (store rs) (store rs')) ∧
  (∀ ev s' (k : nat) b,
     dispatch s ev = Normal s' → history s' !! k = Some b →
     history s !! k = Some b ∨ S k = length (history s')).
Proof.
  intros Hr. pose proof (reachable_Inv s Hr) as HI.
  split; [|split; [|split; [|split; [|split]]]].
  - pose proof (inv_step s HI) as Hstep. intros Hnil. rewrite Hnil in Hstep.
    simpl in Hstep. lia.
  - apply HI.
  - intros i b b' Hi HSi.
    destruct (inv_moves s HI i b b' Hi HSi) as (_ & j & Hplaced).
    apply (placed_differs (mark_of_step (Z.of_nat i)) j);
      [|apply mark_of_step_cases | done].
    eapply Forall_lookup_1; [apply HI | done].
  - by apply reachable_represented.
  - intros rs ev s' Hrep Hd.
    pose proof (ref_dispatch_denotes rs s ev Hrep) as Hsim.
    rewrite Hd in Hsim.
    destruct (ref_dispatch rs ev) as [rs'|] eqn:Hrd; [|done].
    exists rs'. split; [done|]. split; [done|]. by eapply ref_dispatch_objects.
  - intros ev s' k b Hd Hk. by eapply dispatch_entries.
Qed.

(** ** The theorems at sample positions *)

Lemma reachable_after_X0 : reachable state_after_X0.
Proof.
  apply (reachable_run initialState [Click 0]); [constructor | by vm_compute..].
Qed.

Lemma reachable_after_012 : reachable state_after_012.
Proof.
  apply (reachable_run initialState [Click 0; Click 1; Click 2]);
    [constructor | by vm_compute..].
Qed.

(** After "X" on square 0, a second click on square 0 is a no-op. *)
Lemma rejected_move_is_noop_witness :
  reachable state_after_X0 ∧
  arr_get board_X0 0 ≠ JNull ∧
  dispatch state_after_X0 (Click 0) = Normal state_after_X0.
Proof.
  split; [exact reachable_after_X0|]. split; [by vm_compute|].
  apply (rejected_move_is_noop state_after_X0 0 (view_of board_X0) board_X0).
  - exact reachable_after_X0.
  - lia.
  - by vm_compute.
  - reflexivity.
  - left. by vm_compute.
Defined.

(** The evaluator on a board whose top row is "X". *)
Lemma evaluate_characterised_witness :
  board9 board_top_row ∧
  ∃ o, evaluate (Some board_top_row) = Normal o ∧
       (o = Win (JStr "X") (0, 1, 2) ↔
        first_complete board_top_row (0, 1, 2) ∧
        JStr "X" = arr_get board_top_row 0 ∧
        (JStr "X" = JStr "X" ∨ JStr "X" = JStr "O")).
Proof.
  assert (board9 board_top_row) as Hb.
  { apply (bool_decide_unpack _). by vm_compute. }
  split; [exact Hb|].
  destruct (evaluate_characterised board_top_row Hb) as (o & Ho & _ & Hwin & _).
  exists o. split; [exact Ho|]. exact (Hwin (JStr "X") (0, 1, 2)).
Defined.

(** The branching scenario after the moves 0, 1, 2. *)
Lemma accepted_move_truncates_history_witness :
  reachable state_after_012 ∧
  stepNumber state_after_012 = 3 ∧
  ∃ s1 b0 b1 b2 b3 rest,
    history state_after_012 = b0 :: b1 :: b2 :: b3 :: rest ∧
    dispatch state_after_012 (Jump 1) = Normal s1 ∧
    ∀ j, 0 ≤ j ≤ 8 → arr_get b1 j = JNull →
      ∃ s2 b',
        accepted s1 j s2 ∧
        history s2 = [b0; b1; b'] ∧
        length (history s2) = 3%nat ∧
        stepNumber s2 = 2.
Proof.
  split; [exact reachable_after_012|]. split; [reflexivity|].
  apply (proj2 (accepted_move_truncates_history state_after_012 reachable_after_012)).
  reflexivity.
Defined.

(** After one move the step is odd and it is not the turn of "X". *)
Lemma mark_follows_step_parity_witness :
  reachable state_after_X0 ∧
  xIsNext state_after_X0 = Z.even (stepNumber state_after_X0).
Proof.
  split; [exact reachable_after_X0|].
  exact (proj1 (mark_follows_step_parity state_after_X0 reachable_after_X0)).
Defined.

(** A reset after one move. *)
Lemma history_length_after_move_and_reset_witness :
  reachable state_after_X0 ∧
  ∃ s0,
    dispatch state_after_X0 Reset = Normal s0 ∧
    resetGame state_after_X0 = s0 ∧
    history s0 = [JsArray (replicate 9 JNull) ∅] ∧
    length (history s0) = 1%nat ∧
    stepNumber s0 = 0.
Proof.
  split; [exact reachable_after_X0|].
  exact (proj2 (history_length_after_move_and_reset state_after_X0 reachable_after_X0)).
Defined.

Lemma engine_reachable_after_click_9 : engine_reachable state_after_click_9.
Proof.
  apply (engine_reachable_step initialState (Click 9)); [constructor | by vm_compute |].
  eexists. by vm_compute.
Qed.

(** A second click with index 9 after an accepted one: the index now
    holds a mark and the click is a no-op. *)
Lemma out_of_range_click_witness :
  engine_reachable state_after_click_9 ∧
  (9 < 0 ∨ 8 < 9) ∧
  dispatch state_after_click_9 (Click 9) = Normal state_after_click_9.
Proof.
  split; [exact engine_reachable_after_click_9|]. split; [right; lia|].
  destruct (out_of_range_click state_after_click_9 9 engine_reachable_after_click_9)
    as (cur & s' & Hc & Hd & _ & _ & Hnoop & _).
  - right; lia.
  - injection Hc as <-. rewrite Hd. f_equal. apply Hnoop. right. reflexivity.
Defined.

(** A jump to index 5 after one move. *)
Lemma out_of_range_jump_witness :
  engine_reachable state_after_X0 ∧
  (5 < 0 ∨ Z.of_nat (length (history state_after_X0)) ≤ 5) ∧
  ∃ s', dispatch state_after_X0 (Jump 5) = Normal s' ∧
        stepNumber s' = 5 ∧ render s' = TypeError.
Proof.
  assert (engine_reachable state_after_X0) as Hr
    by (apply reachable_engine_reachable, reachable_after_X0).
  split; [exact Hr|]. split; [right; simpl; lia|].
  destruct (out_of_range_jump state_after_X0 5 Hr)
    as (s' & Hd & _ & _ & Hs & _ & _ & Hrender & _).
  - right; simpl; lia.
  - exists s'. split; [exact Hd|]. split; [exact Hs | exact Hrender].
Defined.

(** The history after one move. *)
Lemma history_entries_immutable_witness :
  reachable state_after_X0 ∧
  history state_after_X0 ≠ [] ∧
  ∃ rs, represents rs state_after_X0.
Proof.
  split; [exact reachable_after_X0|].
  destruct (history_entries_immutable state_after_X0 reachable_after_X0)
    as (Hne & _ & _ & Hrep & _).
  by split.
Defined.

(** The status after one move. *)
Lemma status_projection_witness :
  reachable state_after_X0 ∧
  ∃ cur o,
    js_index (history state_after_X0) (stepNumber state_after_X0) = Some cur ∧
    evaluate (Some cur) = Normal o ∧
    status state_after_X0 = Normal (status_of_board cur).
Proof.
  split; [exact reachable_after_X0|].
  destruct (status_projection state_after_X0 reachable_after_X0)
    as [(cur & o & Hc & Ho & Hs & _) _].
  by exists cur, o.
Defined.

(** After "X" on square 0, the click on square 1. *)
Lemma acceptance_gated_on_current_board_witness :
  reachable state_after_X0 ∧
  0 ≤ 1 ≤ 8 ∧
  js_index (history state_after_X0) (stepNumber state_after_X0) = Some board_X0 ∧
  ((∃ s', accepted state_after_X0 1 s') ↔
   evaluate (Some board_X0) = Normal Undecided ∧ arr_get board_X0 1 = JNull).
Proof.
  split; [exact reachable_after_X0|]. split; [lia|]. split; [reflexivity|].
  apply (proj1 acceptance_gated_on_current_board).
  - exact reachable_after_X0.
  - lia.
  - reflexivity.
Defined.

(** * Further properties of the component *)

(** ** The winner calculation on arbitrary arrays *)

Lemma line_wins_passes (squares : jsarray) (l : line) :
  line_wins squares l = true ↔ line_passes squares l.
Proof.
  destruct l as [[a b] c]. unfold line_wins, line_passes, strict_eq.
  rewrite !andb_true_iff, !bool_decide_eq_true.
  split; [intros [[? ?] ?] | intros (? & ? & ?)]; auto.
Qed.

(** X1: on every array of squares holding [null], [undefined] or
    strings -- of any length, with any strings and with further
    properties under integer keys, not only on the 9-cell boards of the
    game -- a winner object returned by [calculateWinner] names one of
    the eight lines, its winner is a truthy value, and the three squares
    of the line all hold that value; no earlier line of the table passes
    the test; and [null] is returned exactly when no line passes it. *)
Theorem calculateWinner_sound (squares : jsarray) :
  (∀ w, calculateWinner (Some squares) = Normal (Some w) →
     win_line w ∈ rows ++ columns ++ diagonals ∧
     truthy (winner w) = true ∧
     line_passes squares (win_line w) ∧
     arr_get squares (win_line w).1.1 = winner w ∧
     arr_get squares (win_line w).1.2 = winner w ∧
     arr_get squares (win_line w).2 = winner w ∧
     ∃ pre post,
       rows ++ columns ++ diagonals = pre ++ win_line w :: post ∧
       Forall (λ l, ¬ line_passes squares l) pre) ∧
  (calculateWinner (Some squares) = Normal None ↔
     ∀ l, l ∈ rows ++ columns ++ diagonals → ¬ line_passes squares l).
Proof.
  split.
  - intros w [= Hw]. apply calculateWinner_loop_Some in Hw
      as (pre & post & Heq & Hpre & Hl & Hwin).
    rewrite lines_order in Heq.
    apply line_wins_passes in Hl. pose proof Hl as Hl'.
    destruct (win_line w) as [[a b] c] eqn:Hline. simpl in *.
    destruct Hl' as (Ht & Hb & Hc).
    split; [rewrite Heq; apply elem_of_app; right; by left|].
    split; [by rewrite Hwin|]. split; [done|].
    split; [done|]. split; [by rewrite Hwin|]. split; [by rewrite Hwin|].
    exists pre, post. split; [done|].
    eapply Forall_impl; [exact Hpre|]. intros l Hf Hp.
    apply line_wins_passes in Hp. congruence.
  - unfold calculateWinner. split.
    + intros [= Hn]. apply calculateWinner_loop_None in Hn.
      rewrite lines_order in Hn. rewrite Forall_forall in Hn.
      intros l Hin Hp. apply line_wins_passes in Hp. specialize (Hn l Hin). congruence.
    + intros Hno. f_equal. apply calculateWinner_loop_None.
      rewrite lines_order. apply Forall_forall. intros l Hin.
      destruct (line_wins squares l) eqn:E; [|done].
      apply line_wins_passes in E. destruct (Hno l Hin E).
Qed.

(** ** Counting the marks on the boards of the history *)

Section filter_length.
Context (P : jsval → Prop) `{!∀ v, Decision (P v)}.

Lemma filter_insert_gain (l : list jsval) (j : nat) (old v : jsval) :
  l !! j = Some old → ¬ P old → P v →
  length (filter P (<[j := v]> l)) = S (length (filter P l)).
Proof.
  revert j. induction l as [|x l IH]; intros j Hj Hold Hv; [done|].
  destruct j as [|j]; simpl in *.
  - injection Hj as ->. rewrite filter_cons_True by done.
    by rewrite filter_cons_False by done.
  - destruct (decide (P x)).
    + rewrite !filter_cons_True by done. simpl. by rewrite (IH j).
    + rewrite !filter_cons_False by done. by rewrite (IH j).
Qed.

Lemma filter_insert_same (l : list jsval) (j : nat) (old v : jsval) :
  l !! j = Some old → ¬ P old → ¬ P v →
  length (filter P (<[j := v]> l)) = length (filter P l).
Proof.
  revert j. induction l as [|x l IH]; intros j Hj Hold Hv; [done|].
  destruct j as [|j]; simpl in *.
  - injection Hj as ->. by rewrite !filter_cons_False by done.
  - destruct (decide (P x)).
    + rewrite !filter_cons_True by done. simpl. by rewrite (IH j).
    + rewrite !filter_cons_False by done. by rewrite (IH j).
Qed.

Lemma filter_length_all (l : list jsval) :
  length (filter P l) = length l ↔ Forall P l.
Proof.
  induction l as [|x l IH]; [split; [constructor | done]|].
  destruct (decide (P x)).
  - rewrite filter_cons_True by done. simpl. rewrite Forall_cons, <- IH.
    split; [intros [= ?]; done | intros [_ ->]; done].
  - rewrite filter_cons_False by done. simpl. split.
    + intros Hlen. pose proof (length_filter P l). lia.
    + intros [? _]%Forall_cons. done.
Qed.

(** Three positions of a list that satisfy [P] are counted. *)
Lemma filter_length_one (l : list jsval) (x : nat) (v : jsval) :
  l !! x = Some v → P v → (1 ≤ length (filter P l))%nat.
Proof.
  revert x. induction l as [|a l IH]; intros x Hx Hv; [done|].
  destruct x as [|x]; simpl in Hx.
  - injection Hx as ->. rewrite filter_cons_True by done. simpl. lia.
  - specialize (IH x Hx Hv). destruct (decide (P a)).
    + rewrite filter_cons_True by done. simpl. lia.
    + by rewrite filter_cons_False by done.
Qed.

Lemma filter_length_two (l : list jsval) (x y : nat) (v w : jsval) :
  (x < y)%nat → l !! x = Some v → l !! y = Some w → P v → P w →
  (2 ≤ length (filter P l))%nat.
Proof.
  revert x y. induction l as [|a l IH]; intros x y Hxy Hx Hy Hv Hw; [done|].
  destruct y as [|y]; [lia|]. simpl in Hy.
  destruct x as [|x]; simpl in Hx.
  - injection Hx as ->. rewrite filter_cons_True by done. simpl.
    pose proof (filter_length_one l y w Hy Hw). lia.
  - assert (2 ≤ length (filter P l))%nat as H2 by (apply (IH x y); (done || lia)).
    destruct (decide (P a)).
    + rewrite filter_cons_True by done. simpl. lia.
    + by rewrite filter_cons_False by done.
Qed.

Lemma filter_length_three (l : list jsval) (x y z : nat) (u v w : jsval) :
  (x < y < z)%nat →
  l !! x = Some u → l !! y = Some v → l !! z = Some w → P u → P v → P w →
  (3 ≤ length (filter P l))%nat.
Proof.
  revert x y z. induction l as [|a l IH]; intros x y z Hxyz Hx Hy Hz Hu Hv Hw; [done|].
  destruct y as [|y]; [lia|]. destruct z as [|z]; [lia|]. simpl in Hy, Hz.
  destruct x as [|x]; simpl in Hx.
  - injection Hx as ->. rewrite filter_cons_True by done. simpl.
    pose proof (filter_length_two l y z v w ltac:(lia) Hy Hz Hv Hw). lia.
  - assert (3 ≤ length (filter P l))%nat as H3 by (apply (IH x y z); (done || lia)).
    destruct (decide (P a)).
    + rewrite filter_cons_True by done. simpl. lia.
    + by rewrite filter_cons_False by done.
Qed.
End filter_length.

Lemma placed_lookup (m : string) (j : Z) (b b' : jsarray) :
  board9 b → placed m j b b' →
  elems b !! Z.to_nat j = Some JNull ∧
  elems b' = <[Z.to_nat j := JStr m]> (elems b).
Proof.
  intros Hb (Hj & Hnull & ->). pose proof Hb as (Hlen & _ & _).
  rewrite arr_set_small by done. rewrite arr_get_small in Hnull by done.
  split; [|done].
  destruct (elems b !! Z.to_nat j) as [v|] eqn:Hv; simpl in Hnull; [by subst|done].
Qed.

Lemma count_of_placed (m m' : string) (j : Z) (b b' : jsarray) :
  board9 b → placed m j b b' →
  count_of m' b' = if bool_decide (m' = m) then S (count_of m' b) else count_of m' b.
Proof.
  intros Hb Hp. destruct (placed_lookup m j b b' Hb Hp) as [Hnull Hb'].
  unfold count_of. rewrite Hb'. case_bool_decide as Hm.
  - subst m'. by apply (filter_insert_gain _ _ _ JNull).
  - apply (filter_insert_same _ _ _ JNull); [done | done |].
    intros [= ?]. by subst.
Qed.

Lemma Inv_count_of (s : State) (k : nat) (b : jsarray) :
  Inv s → history s !! k = Some b →
  (count_of "X" b + count_of "O" b = k)%nat ∧
  count_of "X" b = (count_of "O" b + if Nat.even k then 0 else 1)%nat.
Proof.
  intros HI. revert b. induction k as [|k IH]; intros b Hk.
  - rewrite (inv_first s HI) in Hk. by injection Hk as <-.
  - destruct (lookup_lt_is_Some_2 (history s) k) as [b0 Hb0].
    { apply lookup_lt_Some in Hk. lia. }
    destruct (inv_moves s HI k b0 b Hb0 Hk) as (_ & j & Hplaced).
    assert (board9 b0) as Hb by (eapply Forall_lookup_1; [apply HI | done]).
    destruct (IH b0 Hb0) as [Hsum Hdiff].
    rewrite !(count_of_placed (mark_of_step (Z.of_nat k)) _ j b0 b Hb Hplaced).
    unfold mark_of_step. rewrite even_of_nat, Nat.even_succ, <- Nat.negb_even.
    destruct (Nat.even k); simpl negb; cbv iota;
      repeat case_bool_decide; try done; lia.
Qed.

Lemma count_marks_le (b : jsarray) : (count_marks b ≤ length (elems b))%nat.
Proof. apply length_filter. Qed.

Lemma Inv_history_bound (s : State) :
  Inv s → (length (history s) ≤ 10)%nat.
Proof.
  intros HI. destruct (decide (length (history s) ≤ 10)%nat) as [|Hgt]; [done|].
  destruct (lookup_lt_is_Some_2 (history s) 10) as [b Hb]; [lia|].
  pose proof (Inv_count_marks s 10 b HI Hb) as Hc.
  pose proof (count_marks_le b) as Hle.
  assert (board9 b) as (Hlen & _) by (eapply Forall_lookup_1; [apply HI | done]).
  lia.
Qed.

(** X2: in every reachable state the board at index [k] of the history
    carries exactly [k] marks; "X" and "O" have equally many when [k] is
    even and "X" has one more when [k] is odd; so the history has at most
    ten entries and the step never exceeds 9. *)
Theorem marks_on_board_count (s : State) :
  reachable s →
  (∀ (k : nat) b, history s !! k = Some b →
     count_marks b = k ∧
     (count_of "X" b + count_of "O" b = k)%nat ∧
     count_of "X" b = (count_of "O" b + if Nat.even k then 0 else 1)%nat) ∧
  (length (history s) ≤ 10)%nat ∧
  0 ≤ stepNumber s ≤ 9.
Proof.
  intros Hr. pose proof (reachable_Inv s Hr) as HI. split; [|split].
  - intros k b Hk. split; [by apply (Inv_count_marks s)|].
    by apply (Inv_count_of s).
  - by apply Inv_history_bound.
  - pose proof (Inv_history_bound s HI). pose proof (inv_step s HI). lia.
Qed.

(** ** The winner is the player who moved last *)

Lemma arr_get_set (b : jsarray) (j k : Z) (v : jsval) :
  length (elems b) = 9%nat → 0 ≤ j ≤ 8 → 0 ≤ k ≤ 8 →
  arr_get (arr_set b j v) k = if bool_decide (k = j) then v else arr_get b k.
Proof.
  intros Hlen Hj Hk. rewrite arr_set_small by done.
  rewrite !arr_get_small by done. simpl. case_bool_decide as E.
  - subst k. rewrite list_lookup_insert_eq; [done | lia].
  - rewrite list_lookup_insert_ne; [done | lia].
Qed.

Lemma line_wins_placed (m : string) (j : Z) (b b' : jsarray) (l : line) :
  board9 b → placed m j b b' → line_in_range l →
  line_wins b l = false → line_wins b' l = true →
  line_includes l j = true ∧ arr_get b' l.1.1 = JStr m.
Proof.
  intros Hb (Hj & Hnull & ->) Hl Hold Hnew. pose proof Hb as (Hlen & _ & _).
  destruct l as [[x y] z]. destruct Hl as (Hx & Hy & Hz).
  unfold line_wins in *. simpl.
  rewrite !(arr_get_set b j _ _ Hlen Hj) in * by done.
  apply andb_true_iff in Hnew as [[Ht Hxy]%andb_true_iff Hxz].
  unfold strict_eq in Hxy, Hxz. apply bool_decide_eq_true in Hxy, Hxz.
  destruct (bool_decide (x = j)) eqn:Ex; [apply bool_decide_eq_true in Ex|].
  { split; [|done]. subst x. by rewrite Z.eqb_refl. }
  destruct (bool_decide (y = j)) eqn:Ey; [apply bool_decide_eq_true in Ey|].
  { split; [|done]. subst y. rewrite Z.eqb_refl. by rewrite orb_true_r. }
  destruct (bool_decide (z = j)) eqn:Ez; [apply bool_decide_eq_true in Ez|].
  { split; [|done]. subst z. rewrite Z.eqb_refl. by rewrite !orb_true_r. }
  exfalso. rewrite Ht in Hold. unfold strict_eq in Hold.
  rewrite <- Hxy, <- Hxz in Hold. by rewrite !bool_decide_true in Hold.
Qed.

Lemma lines_increasing :
  Forall (λ l : line, 0 ≤ l.1.1 ∧ l.1.1 < l.1.2 ∧ l.1.2 < l.2 ∧ l.2 ≤ 8) lines.
Proof.
  rewrite lines_order. unfold rows, columns, diagonals. simpl.
  repeat (apply Forall_cons_2; [simpl; lia|]). apply Forall_nil_2.
Qed.

Lemma winner_three_marks (b : jsarray) (w : WinnerObj) (m : string) :
  board9 b → calculateWinner_loop b lines = Some w → winner w = JStr m →
  (3 ≤ count_of m b)%nat.
Proof.
  intros Hb Hw Hm. pose proof Hb as (Hlen & _ & _).
  apply calculateWinner_loop_Some in Hw as (pre & post & Heq & _ & Hl & Hwin).
  pose proof lines_increasing as Hinc. rewrite Heq in Hinc.
  apply Forall_app in Hinc as [_ [Hinc _]%Forall_cons].
  apply line_wins_passes in Hl.
  destruct (win_line w) as [[x y] z]. simpl in *.
  destruct Hl as (_ & Hy & Hz).
  rewrite <- Hwin, Hm in Hy, Hz. rewrite Hm in Hwin. symmetry in Hwin.
  rewrite arr_get_small in Hwin, Hy, Hz by lia.
  assert (∀ k, 0 ≤ k ≤ 8 → default JUndefined (elems b !! Z.to_nat k) = JStr m →
            elems b !! Z.to_nat k = Some (JStr m)) as Hget.
  { intros k Hk E. destruct (elems b !! Z.to_nat k); simpl in E; by subst. }
  apply (filter_length_three _ (elems b) (Z.to_nat x) (Z.to_nat y) (Z.to_nat z)
           (JStr m) (JStr m) (JStr m)); try done; try (apply Hget; (done || lia)).
  lia.
Qed.

Lemma Inv_winner_last_mover (s : State) (k : nat) (b' : jsarray) (w : WinnerObj) :
  Inv s → history s !! k = Some b' → calculateWinner_loop b' lines = Some w →
  ∃ (n : nat) b j,
    k = S n ∧ history s !! n = Some b ∧
    calculateWinner_loop b lines = None ∧
    placed (mark_of_step (Z.of_nat n)) j b b' ∧
    winner w = JStr (mark_of_step (Z.of_nat n)) ∧
    line_includes (win_line w) j = true.
Proof.
  intros HI Hk Hw. destruct k as [|n].
  { rewrite (inv_first s HI) in Hk. injection Hk as <-. by vm_compute in Hw. }
  destruct (lookup_lt_is_Some_2 (history s) n) as [b Hb0].
  { apply lookup_lt_Some in Hk. lia. }
  destruct (inv_moves s HI n b b' Hb0 Hk) as (Hnone & j & Hplaced).
  assert (board9 b) as Hb by (eapply Forall_lookup_1; [apply HI | done]).
  exists n, b, j. repeat split; try done; try apply Hplaced.
  all: apply calculateWinner_loop_Some in Hw as (pre & post & Heq & _ & Hl & Hwin).
  all: pose proof lines_in_range as Hr; rewrite Forall_forall in Hr.
  all: assert (win_line w ∈ lines) as Hin
         by (rewrite Heq; apply elem_of_app; right; by left).
  all: rewrite calculateWinner_loop_None, Forall_forall in Hnone.
  all: destruct (line_wins_placed _ j b b' (win_line w) Hb Hplaced (Hr _ Hin)
                   (Hnone _ Hin) Hl) as [Hinc Hmark].
  - by rewrite Hwin.
  - done.
Qed.

(** X3: in a reachable state whose current board has a winner, the
    winner is the player who made the last move ("X" at an odd step, "O"
    at an even one), the square of that last move lies on the reported
    line, the board before it had no winner, and at least five moves
    have been played. *)
Theorem winner_made_last_move (s : State) (v : View) (w : WinnerObj) :
  reachable s →
  render s = Normal v →
  winnerObj v = Some w →
  5 ≤ stepNumber s ∧
  winner w = JStr (if Z.odd (stepNumber s) then "X" else "O") ∧
  ∃ prev j,
    js_index (history s) (stepNumber s - 1) = Some prev ∧
    0 ≤ j ≤ 8 ∧
    arr_get prev j = JNull ∧
    currentSquares v = Some (arr_set prev j (winner w)) ∧
    line_includes (win_line w) j = true ∧
    calculateWinner (Some prev) = Normal None.
Proof.
  intros Hr Hv Hw. pose proof (reachable_Inv s Hr) as HI.
  destruct (Inv_current s HI) as (cur & Hcur & Hb).
  pose proof (inv_step s HI) as Hstep.
  rewrite (render_current s cur) in Hv by (done || lia). injection Hv as <-.
  simpl in Hw.
  destruct (Inv_winner_last_mover s _ cur w HI Hcur Hw)
    as (n & prev & j & Hn & Hprev & Hnone & Hplaced & Hwin & Hinc).
  assert (stepNumber s = Z.of_nat n + 1) as Hs by lia.
  assert ((if Z.odd (stepNumber s) then "X" else "O") = mark_of_step (Z.of_nat n)) as Hmark.
  { unfold mark_of_step. rewrite Hs.
    replace (Z.of_nat n + 1) with (Z.succ (Z.of_nat n)) by lia.
    by rewrite Z.odd_succ. }
  split; [|split].
  - pose proof (winner_three_marks cur w _ Hb Hw Hwin) as H3.
    destruct (Inv_count_of s _ cur HI Hcur) as [Hsum Hdiff].
    rewrite Hn, Nat.even_succ, <- Nat.negb_even in Hdiff.
    unfold mark_of_step in H3. rewrite even_of_nat in H3.
    destruct (Nat.even n); simpl in Hdiff; lia.
  - by rewrite Hmark.
  - exists prev, j. destruct Hplaced as (Hj & Hnull & Hset).
    split; [rewrite js_index_nonneg by lia; by replace (Z.to_nat (stepNumber s - 1)) with n by lia|].
    split; [done|]. split; [done|]. simpl. rewrite Hwin.
    split; [by rewrite Hset|]. split; [done|].
    unfold calculateWinner. by rewrite Hnone.
Qed.

(** ** Decided boards in the history *)

Lemma Inv_successor_undecided (s : State) (k : nat) (b : jsarray) :
  Inv s → history s !! k = Some b → (S k < length (history s))%nat →
  evaluate (Some b) = Normal Undecided ∧ ¬ no_empty_cell b.
Proof.
  intros HI Hk Hlt.
  destruct (lookup_lt_is_Some_2 (history s) (S k) Hlt) as [b' Hb'].
  destruct (inv_moves s HI k b b' Hk Hb') as (Hnone & j & Hj & Hnull & _).
  assert (board9 b) as Hb by (eapply Forall_lookup_1; [apply HI | done]).
  assert (¬ no_empty_cell b) as Hne by (intros Hf; by destruct (Hf j Hj)).
  split; [|done]. rewrite evaluate_board, Hnone.
  destruct (arr_every_not_null b) eqn:E; [|done].
  by apply (arr_every_not_null_iff b Hb) in E.
Qed.

(** X4: in a reachable state every entry of the history that has a
    successor is undecided and has an empty square: only the last entry
    can be a won or drawn board.  So when the current board is decided,
    the step is the last index of the history. *)
Theorem only_last_entry_decided (s : State) :
  reachable s →
  (∀ (k : nat) b, history s !! k = Some b → (S k < length (history s))%nat →
     evaluate (Some b) = Normal Undecided ∧ ¬ no_empty_cell b) ∧
  (∀ v, render s = Normal v → outcome v ≠ Undecided →
     stepNumber s = Z.of_nat (length (history s)) - 1).
Proof.
  intros Hr. pose proof (reachable_Inv s Hr) as HI. split.
  - intros k b. by apply Inv_successor_undecided.
  - intros v Hv Hdec. destruct (Inv_current s HI) as (cur & Hcur & Hb).
    pose proof (inv_step s HI) as Hstep.
    rewrite (render_current s cur) in Hv by (done || lia). injection Hv as <-.
    destruct (decide (S (Z.to_nat (stepNumber s)) < length (history s))%nat) as [Hlt|]; [|lia].
    destruct (Inv_successor_undecided s _ cur HI Hcur Hlt) as [Hund _].
    rewrite evaluate_board in Hund. rewrite outcome_view_of in Hdec. congruence.
Qed.

Lemma full_board_nine_marks (b : jsarray) :
  board9 b → no_empty_cell b ↔ count_marks b = 9%nat.
Proof.
  intros Hb. pose proof Hb as (Hlen & Hall & _).
  rewrite <- (arr_every_not_null_iff b Hb). unfold count_marks, arr_every_not_null.
  rewrite <- Hlen, filter_length_all, forallb_forall, Forall_forall.
  split.
  - intros H v Hv. apply list_elem_of_In, H in Hv.
    unfold strict_eq in Hv. apply negb_true_iff, bool_decide_eq_false in Hv. done.
  - intros H v Hv. apply list_elem_of_In, H in Hv.
    unfold strict_eq. by rewrite bool_decide_false.
Qed.

(** X5: in a reachable state the current board is full exactly at step
    9; a draw occurs only at step 9, and at step 9 the game is decided
    (won or drawn). *)
Theorem draw_only_on_full_board (s : State) (v : View) (cur : jsarray) :
  reachable s →
  render s = Normal v →
  currentSquares v = Some cur →
  (no_empty_cell cur ↔ stepNumber s = 9) ∧
  (outcome v = Draw → stepNumber s = 9) ∧
  (stepNumber s = 9 → outcome v ≠ Undecided) ∧
  (draw v = true ↔ winnerObj v = None ∧ stepNumber s = 9).
Proof.
  intros Hr Hv Hcur. pose proof (reachable_Inv s Hr) as HI.
  destruct (render_reachable s v cur HI Hv Hcur) as (Hlook & Hb & ->).
  pose proof (inv_step s HI) as Hstep.
  assert (no_empty_cell cur ↔ stepNumber s = 9) as Hfull.
  { rewrite (full_board_nine_marks cur Hb), (Inv_count_marks s _ cur HI Hlook). lia. }
  split; [done|]. rewrite outcome_view_of.
  pose proof (arr_every_not_null_iff cur Hb) as Hevery.
  unfold view_of. simpl.
  destruct (calculateWinner_loop cur lines) as [w|].
  - repeat split; try done. by intros [? _].
  - destruct (arr_every_not_null cur) eqn:E.
    + assert (stepNumber s = 9) by by apply Hfull, Hevery. by repeat split.
    + repeat split; try done.
      * intros H9. apply Hfull, Hevery in H9. congruence.
      * intros [_ H9]. apply Hfull, Hevery in H9. congruence.
Qed.

(** ** Time travel *)

Lemma reachable_jump (s : State) (move : Z) :
  reachable s → 0 ≤ move < Z.of_nat (length (history s)) →
  reachable (mkState (history s) move (Z.even move)).
Proof.
  intros Hr Hm. apply (reachable_step s (Jump move)); [done | |].
  - simpl. apply andb_true_iff. split; [apply Z.leb_le | apply Z.ltb_lt]; lia.
  - apply dispatch_jump, Inv_render. by apply reachable_Inv.
Qed.

Lemma State_eta (s : State) :
  mkState (history s) (stepNumber s) (xIsNext s) = s.
Proof. by destruct s. Qed.

(** X6: in a reachable state a jump to an index of the history keeps the
    history, sets the step to that index and the turn to its parity, and
    the result renders.  A jump to the current step changes nothing, a
    later jump overrides an earlier one, and jumping away and back to the
    original step restores the state exactly. *)
Theorem jump_within_history (s : State) (move : Z) :
  reachable s →
  0 ≤ move < Z.of_nat (length (history s)) →
  ∃ s',
    dispatch s (Jump move) = Normal s' ∧
    reachable s' ∧
    history s' = history s ∧
    stepNumber s' = move ∧
    xIsNext s' = Z.even move ∧
    completes (render s') ∧
    dispatch s (Jump (stepNumber s)) = Normal s ∧
    dispatch s' (Jump (stepNumber s)) = Normal s ∧
    (∀ move', 0 ≤ move' < Z.of_nat (length (history s)) →
       dispatch s' (Jump move') = dispatch s (Jump move')).
Proof.
  intros Hr Hm. pose proof (reachable_Inv s Hr) as HI.
  pose proof (reachable_jump s move Hr Hm) as Hr'.
  pose proof (reachable_Inv _ Hr') as HI'.
  assert (mkState (history s) (stepNumber s) (Z.even (stepNumber s)) = s) as Hback.
  { rewrite <- (inv_turn s HI). apply State_eta. }
  eexists. split; [apply dispatch_jump; by apply Inv_render|].
  split; [done|]. repeat split; try done.
  - by apply Inv_render.
  - rewrite dispatch_jump by by apply Inv_render. by rewrite Hback.
  - rewrite dispatch_jump by by apply Inv_render. simpl. by rewrite Hback.
  - intros move' Hm'. by rewrite !dispatch_jump by by apply Inv_render.
Qed.

(** X7: a reset in any reachable state gives exactly the initial state
    (one empty board, step 0, turn of "X"), whose status reads
    "Next player: X"; a second reset changes nothing. *)
Theorem reset_restores_initial_state (s : State) :
  reachable s →
  dispatch s Reset = Normal initialState ∧
  run s [Reset; Reset] = Normal initialState ∧
  xIsNext initialState = true ∧
  status initialState = Normal (mkStatus "ttt-status" "Next player: X") ∧
  winningLine initialState = Normal None.
Proof.
  intros Hr. pose proof (reachable_Inv s Hr) as HI.
  assert (dispatch s Reset = Normal initialState) as Hd
    by (apply dispatch_reset; by apply Inv_render).
  split; [done|]. split; [|by vm_compute].
  simpl. rewrite Hd. simpl.
  rewrite dispatch_reset; [done|]. apply Inv_render, Inv_initial.
Qed.

(** X8: undo and redo.  After an accepted click on square [i] at step
    [c], jumping back to [c] shows the board and the status the state
    had before the click while keeping the new entry, and clicking [i]
    again from there restores the state after the click exactly. *)
Theorem undo_then_replay (s : State) (i : Z) (s' : State) :
  reachable s →
  0 ≤ i ≤ 8 →
  accepted s i s' →
  ∃ s1,
    dispatch s' (Jump (stepNumber s)) = Normal s1 ∧
    history s1 = history s' ∧
    js_index (history s1) (stepNumber s1) = js_index (history s) (stepNumber s) ∧
    status s1 = status s ∧
    dispatch s1 (Click i) = Normal s'.
Proof.
  intros Hr Hi Hacc. pose proof (reachable_Inv s Hr) as HI.
  destruct (Inv_current s HI) as (cur & Hcur & Hb).
  pose proof (inv_step s HI) as Hstep.
  destruct (proj1 (accepted_iff s cur i s' HI Hcur) Hacc) as (Hw & Ht & ->).
  assert (arr_get cur i = JNull) as Hnull
    by (apply is_cell_truthy; [by apply board9_cell | done]).
  pose proof (Inv_click_result s cur i HI Hcur Hw Hi Hnull) as HI'.
  set (c := Z.to_nat (stepNumber s)) in *.
  assert (length (take (S c) (history s)) = S c) as Hlen by (apply length_take_S; lia).
  assert (history (click_result s cur i) !! c = Some cur) as Hcur'.
  { unfold click_result. simpl. fold c.
    rewrite lookup_app_l by lia. by rewrite lookup_take_lt by lia. }
  set (s1 := mkState (history (click_result s cur i)) (stepNumber s)
                     (Z.even (stepNumber s))).
  assert (Inv s1) as HI1.
  { apply Inv_jump; [done|]. unfold click_result. simpl. fold c.
    rewrite length_app, Hlen. simpl. lia. }
  assert (history s1 !! Z.to_nat (stepNumber s1) = Some cur) as Hcur1 by done.
  exists s1. split; [apply dispatch_jump; by apply Inv_render|].
  split; [done|]. split; [|split].
  - rewrite !js_index_nonneg by (simpl; lia). rewrite Hcur1. symmetry. exact Hcur.
  - by rewrite (status_reachable s1 cur HI1 Hcur1), (status_reachable s cur HI Hcur).
  - rewrite (click_accepts s1 cur i HI1 Hcur1 Hw Hnull). f_equal.
    unfold click_result, s1. simpl. fold c. rewrite <- (inv_turn s HI).
    f_equal. f_equal.
    rewrite take_app_le by lia. by rewrite take_take, Nat.min_id.
Qed.

(** X9: marks persist.  In a reachable state a square that is marked in
    an entry of the history holds the same mark in every later entry. *)
Theorem marks_persist (s : State) (k k' : nat) (b b' : jsarray) (j : Z) :
  reachable s →
  (k ≤ k')%nat →
  history s !! k = Some b →
  history s !! k' = Some b' →
  0 ≤ j ≤ 8 →
  arr_get b j ≠ JNull →
  arr_get b' j = arr_get b j.
Proof.
  intros Hr Hle Hk Hk' Hj Hmark. pose proof (reachable_Inv s Hr) as HI.
  revert b' Hk'. induction Hle as [|n Hle IH]; intros b' Hk'.
  - rewrite Hk in Hk'. by injection Hk' as <-.
  - destruct (lookup_lt_is_Some_2 (history s) n) as [bn Hbn].
    { apply lookup_lt_Some in Hk'. lia. }
    specialize (IH bn Hbn).
    destruct (inv_moves s HI n bn b' Hbn Hk') as (_ & j' & Hj' & Hnull & ->).
    assert (board9 bn) as (Hlen & _) by (eapply Forall_lookup_1; [apply HI | done]).
    rewrite arr_get_set by done. case_bool_decide as E; [|done].
    subst j'. congruence.
Qed.

(** ** The rendered tree and its events *)

Lemma TicTacToeGame_current (s : State) (cur : jsarray) :
  0 ≤ stepNumber s →
  history s !! Z.to_nat (stepNumber s) = Some cur →
  TicTacToeGame s =
    Normal (mkGameTree
              (GameStatus (optional_winner (winnerObj (view_of cur)))
                          (draw (view_of cur)) (xIsNext s))
              (Board cur (win_line <$> winnerObj (view_of cur)))
              Reset
              (MoveHistory (history s) (stepNumber s))).
Proof.
  intros Hs Hcur. unfold TicTacToeGame. by rewrite (render_current s cur).
Qed.

Lemma Board_squares (squares : jsarray) (winningLine : option line) :
  concat (Board squares winningLine) =
    renderSquare squares winningLine <$> [0; 1; 2; 3; 4; 5; 6; 7; 8].
Proof. reflexivity. Qed.

Lemma Board_events (squares : jsarray) (winningLine : option line) :
  square_onClick <$> concat (Board squares winningLine) =
    Click <$> [0; 1; 2; 3; 4; 5; 6; 7; 8].
Proof. reflexivity. Qed.

Lemma MoveHistory_events {A} (h : list A) (stepNumber : Z) (ev : Event) :
  ev ∈ button_onClick <$> MoveHistory h stepNumber ↔
  ∃ k : nat, (k < length h)%nat ∧ ev = Jump (Z.of_nat k).
Proof.
  unfold MoveHistory. rewrite list_elem_of_fmap. split.
  - intros (e & -> & He). apply elem_of_lookup_imap in He as (k & x & -> & Hk).
    exists k. split; [by eapply lookup_lt_Some | done].
  - intros (k & Hk & ->). destruct (lookup_lt_is_Some_2 h k Hk) as [x Hx].
    eexists. split; [|by apply (elem_of_lookup_imap_2 _ h x k)]. done.
Qed.

Lemma tree_events_offered (s : State) (cur : jsarray) (ev : Event) :
  ev ∈ tree_events
         (mkGameTree
            (GameStatus (optional_winner (winnerObj (view_of cur)))
                        (draw (view_of cur)) (xIsNext s))
            (Board cur (win_line <$> winnerObj (view_of cur)))
            Reset
            (MoveHistory (history s) (stepNumber s))) ↔
  offered s ev = true.
Proof.
  unfold tree_events. cbn [tree_board tree_reset tree_history].
  rewrite Board_events, !elem_of_app, MoveHistory_events, list_elem_of_fmap.
  rewrite list_elem_of_singleton.
  destruct ev as [i| |move]; simpl.
  - rewrite andb_true_iff, Z.leb_le, Z.leb_le. split.
    + intros [(k & [= ->] & Hk) | [? | (k & _ & ?)]]; [|done..].
      repeat (apply elem_of_cons in Hk as [-> | Hk]; [lia|]).
      by apply elem_of_nil in Hk.
    + intros Hi. left. exists i. split; [done|].
      assert (i = 0 ∨ i = 1 ∨ i = 2 ∨ i = 3 ∨ i = 4 ∨ i = 5 ∨ i = 6 ∨ i = 7 ∨ i = 8)
        as Hcases by lia.
      rewrite !elem_of_cons. tauto.
  - split; [done|]. intros _. right; by left.
  - rewrite andb_true_iff, Z.leb_le, Z.ltb_lt. split.
    + intros [(k & ? & _) | [? | (k & Hk & [= ->])]]; [done | done | lia].
    + intros Hm. right; right. exists (Z.to_nat move).
      split; [lia | f_equal; lia].
Qed.

(** X10: in a reachable state the component renders, and the events its
    rendered tree can forward -- the nine squares of [Board], the reset
    button and the buttons of [MoveHistory] -- are exactly the clicks on
    0..8, the reset and the jumps to indices of the history.  Each of
    them is handled without a fault and leads to a state that renders
    again, so no sequence of interactions with the rendered tree makes
    the component throw. *)
Theorem rendered_events_never_throw (s : State) :
  reachable s →
  ∃ t,
    TicTacToeGame s = Normal t ∧
    (∀ ev, ev ∈ tree_events t ↔ offered s ev = true) ∧
    (∀ ev, ev ∈ tree_events t →
       ∃ s' t',
         dispatch s ev = Normal s' ∧ reachable s' ∧ TicTacToeGame s' = Normal t').
Proof.
  intros Hr. pose proof (reachable_Inv s Hr) as HI.
  destruct (Inv_current s HI) as (cur & Hcur & Hb).
  pose proof (inv_step s HI) as Hstep.
  eexists. split; [apply (TicTacToeGame_current s cur); (lia || done)|].
  split; [intros ev; apply tree_events_offered|].
  intros ev Hev. apply tree_events_offered in Hev.
  destruct (Inv_dispatch_completes s ev HI) as [s' Hd].
  assert (reachable s') as Hr' by by eapply reachable_step.
  pose proof (reachable_Inv s' Hr') as HI'.
  destruct (Inv_current s' HI') as (cur' & Hcur' & _).
  exists s'. eexists. split; [done|]. split; [done|].
  apply (TicTacToeGame_current s' cur'); [apply HI' | done].
Qed.

(** ** The board as displayed *)

Lemma renderSquare_highlighted (squares : jsarray) (winningLine : option line) (i : Z) :
  highlighted (renderSquare squares winningLine i) ↔
  ∃ l, winningLine = Some l ∧ line_includes l i = true.
Proof.
  unfold highlighted, renderSquare, Square. simpl.
  destruct winningLine as [l|]; [destruct (line_includes l i) eqn:E|]; simpl.
  - split; [intros _; by exists l | done].
  - split; [done | intros (? & [= <-] & ?); congruence].
  - split; [done | by intros (? & ? & _)].
Qed.

Lemma renderSquare_label (b : jsarray) (winningLine : option line) (i : Z) :
  board9 b → 0 ≤ i ≤ 8 →
  (arr_get b i = JNull ∧
   square_ariaLabel (renderSquare b winningLine i) = "Empty cell") ∨
  (∃ m, (m = "X" ∨ m = "O") ∧ arr_get b i = JStr m ∧
        square_ariaLabel (renderSquare b winningLine i) = "Cell: " +:+ m).
Proof.
  intros Hb Hi. unfold renderSquare, Square. simpl.
  destruct (board9_cell b i Hb Hi) as [E | [E | E]]; rewrite E; simpl.
  - by left.
  - right. exists "X". auto.
  - right. exists "O". auto.
Qed.

Lemma highlighted_count (squares : jsarray) (l : line) :
  l ∈ rows ++ columns ++ diagonals →
  length (filter highlighted
            (renderSquare squares (Some l) <$> [0; 1; 2; 3; 4; 5; 6; 7; 8])) = 3%nat.
Proof.
  unfold rows, columns, diagonals. simpl. intros Hl.
  repeat (apply elem_of_cons in Hl as [-> | Hl]; [by vm_compute|]).
  by apply elem_of_nil in Hl.
Qed.

Lemma winner_line_in_lines (b : jsarray) (w : WinnerObj) :
  calculateWinner_loop b lines = Some w →
  win_line w ∈ rows ++ columns ++ diagonals ∧
  line_passes b (win_line w) ∧
  winner w = arr_get b (win_line w).1.1.
Proof.
  intros (pre & post & Heq & _ & Hl & Hwin)%calculateWinner_loop_Some.
  rewrite lines_order in Heq. split; [|split; [by apply line_wins_passes | done]].
  rewrite Heq. apply elem_of_app. right. by left.
Qed.

(** X11: the board as displayed in a reachable state.  It has three rows
    of three squares; the square in row [r] and column [c] forwards the
    click on index [3 r + c], shows the value of that square of the
    current board, and is labelled "Empty cell" when that square is
    empty and "Cell: X" or "Cell: O" otherwise.  A square is highlighted
    exactly when the board has a winner and the square lies on the
    reported line: three squares are highlighted on a won board and none
    otherwise, and every highlighted square shows the winner's mark. *)
Theorem board_as_displayed (s : State) :
  reachable s →
  ∃ t cur,
    TicTacToeGame s = Normal t ∧
    js_index (history s) (stepNumber s) = Some cur ∧
    length (tree_board t) = 3%nat ∧
    Forall (λ row, length row = 3%nat) (tree_board t) ∧
    (∀ (r c : nat), (r < 3)%nat → (c < 3)%nat →
       ∃ row e (i : Z),
         i = Z.of_nat r * 3 + Z.of_nat c ∧
         tree_board t !! r = Some row ∧ row !! c = Some e ∧
         square_onClick e = Click i ∧
         square_children e = arr_get cur i ∧
         ((arr_get cur i = JNull ∧ square_ariaLabel e = "Empty cell") ∨
          (∃ m, (m = "X" ∨ m = "O") ∧ arr_get cur i = JStr m ∧
                square_ariaLabel e = "Cell: " +:+ m)) ∧
         (highlighted e ↔
          ∃ w, calculateWinner (Some cur) = Normal (Some w) ∧
               line_includes (win_line w) i = true)) ∧
    length (filter highlighted (concat (tree_board t))) =
      match calculateWinner (Some cur) with
      | Normal (Some _) => 3%nat
      | Normal None | TypeError => 0%nat
      end ∧
    (∀ e, e ∈ concat (tree_board t) → highlighted e →
       ∃ w, calculateWinner (Some cur) = Normal (Some w) ∧
            square_children e = winner w).
Proof.
  intros Hr. pose proof (reachable_Inv s Hr) as HI.
  destruct (Inv_current s HI) as (cur & Hcur & Hb).
  pose proof (inv_step s HI) as Hstep.
  eexists. exists cur.
  split; [apply (TicTacToeGame_current s cur); (lia || done)|].
  split; [by rewrite js_index_nonneg by lia|].
  cbn [tree_board]. unfold view_of, calculateWinner. cbn [winnerObj].
  set (wl := win_line <$> calculateWinner_loop cur lines).
  assert (∀ i, (∃ l, wl = Some l ∧ line_includes l i = true) ↔
               ∃ w, Normal (calculateWinner_loop cur lines) = Normal (Some w)
                    ∧ line_includes (win_line w) i = true) as Hwl.
  { intros i. unfold wl. destruct (calculateWinner_loop cur lines) as [w|]; simpl.
    - split; [intros (l & [= <-] & ?); eauto | intros (w' & [= <-] & ?); eauto].
    - split; [by intros (? & ? & _) | by intros (? & ? & _)]. }
  split; [done|]. split; [by repeat constructor|]. split; [|split].
  - intros r c Hr3 Hc3.
    assert (0 ≤ Z.of_nat r * 3 + Z.of_nat c ≤ 8) as Hi by lia.
    destruct r as [|[|[|r]]]; [| | |lia];
      (destruct c as [|[|[|c]]]; [| | |lia]);
      (eexists; eexists; eexists; split; [reflexivity|];
       split; [reflexivity|]; split; [reflexivity|];
       split; [reflexivity|]; split; [reflexivity|];
       split; [by apply renderSquare_label|];
       rewrite renderSquare_highlighted; apply Hwl).
  - rewrite Board_squares. unfold wl.
    destruct (calculateWinner_loop cur lines) as [w|] eqn:Hw; simpl fmap at 1.
    + apply highlighted_count. by apply (winner_line_in_lines cur).
    + by vm_compute.
  - intros e He Hh. rewrite Board_squares in He.
    apply list_elem_of_fmap in He as (i & -> & Hi).
    apply renderSquare_highlighted in Hh as (l & Hl & Hinc).
    unfold wl in Hl.
    destruct (calculateWinner_loop cur lines) as [w|] eqn:Hw; [|done].
    injection Hl as <-. exists w. split; [done|].
    destruct (winner_line_in_lines cur w Hw) as (_ & Hpass & Hwin).
    unfold renderSquare, Square. simpl. rewrite Hwin.
    destruct (win_line w) as [[x y] z]. simpl in *.
    destruct Hpass as (_ & Hy & Hz).
    apply orb_true_iff in Hinc as [[E%Z.eqb_eq | E%Z.eqb_eq]%orb_true_iff | E%Z.eqb_eq];
      by subst i.
Qed.

(** ** The move list as displayed *)

Lemma MoveHistory_lookup {A} (h : list A) (stepNumber : Z) (k : nat) (e : HistoryButton) :
  MoveHistory h stepNumber !! k = Some e →
  (k < length h)%nat ∧
  button_onClick e = Jump (Z.of_nat k) ∧
  button_label e =
    (if Z.of_nat k =? 0 then "Go to game start" else "Go to move #" +:+ pretty k) ∧
  (active e ↔ Z.of_nat k = stepNumber).
Proof.
  unfold MoveHistory. rewrite list_lookup_imap.
  destruct (h !! k) as [x|] eqn:Hx; [|done]. simpl. intros [= <-].
  split; [by eapply lookup_lt_Some|]. split; [done|]. split; [done|].
  unfold active. simpl. destruct (Z.of_nat k =? stepNumber) eqn:E.
  - apply Z.eqb_eq in E. done.
  - apply Z.eqb_neq in E. done.
Qed.

(** X12: the move list as displayed in a reachable state.  It has one
    button per entry of the history; button [k] jumps to index [k] and
    is labelled "Go to game start" for [k = 0] and "Go to move #k"
    otherwise, so different buttons carry different labels; and exactly
    one button is marked active, the one of the current step. *)
Theorem move_list_as_displayed (s : State) :
  reachable s →
  ∃ t,
    TicTacToeGame s = Normal t ∧
    length (tree_history t) = length (history s) ∧
    (∀ (k : nat) e, tree_history t !! k = Some e →
       button_onClick e = Jump (Z.of_nat k) ∧
       button_label e =
         (if Z.of_nat k =? 0 then "Go to game start"
          else "Go to move #" +:+ pretty k) ∧
       (active e ↔ Z.of_nat k = stepNumber s)) ∧
    (∃ e, tree_history t !! Z.to_nat (stepNumber s) = Some e ∧ active e) ∧
    (∀ (k k' : nat) e e',
       tree_history t !! k = Some e → tree_history t !! k' = Some e' →
       button_label e = button_label e' → k = k').
Proof.
  intros Hr. pose proof (reachable_Inv s Hr) as HI.
  destruct (Inv_current s HI) as (cur & Hcur & Hb).
  pose proof (inv_step s HI) as Hstep.
  eexists. split; [apply (TicTacToeGame_current s cur); (lia || done)|].
  cbn [tree_history]. split; [apply length_imap|]. split; [|split].
  - intros k e He. by destruct (MoveHistory_lookup _ _ k e He) as (_ & ? & ? & ?).
  - destruct (lookup_lt_is_Some_2 (MoveHistory (history s) (stepNumber s))
                (Z.to_nat (stepNumber s))) as [e He].
    { unfold MoveHistory. rewrite length_imap. lia. }
    exists e. split; [done|].
    destruct (MoveHistory_lookup _ _ _ e He) as (_ & _ & _ & Hact). apply Hact. lia.
  - intros k k' e e' He He' Hlabel.
    destruct (MoveHistory_lookup _ _ k e He) as (_ & _ & Hl & _).
    destruct (MoveHistory_lookup _ _ k' e' He') as (_ & _ & Hl' & _).
    rewrite Hl, Hl' in Hlabel.
    destruct (Z.of_nat k =? 0) eqn:E, (Z.of_nat k' =? 0) eqn:E';
      try apply Z.eqb_eq in E; try apply Z.eqb_eq in E'.
    + lia.
    + simpl in Hlabel. discriminate.
    + simpl in Hlabel. discriminate.
    + simpl in Hlabel. injection Hlabel as Hp. exact (pretty_nat_inj _ _ Hp).
Qed.

(** ** The theme toggle *)

(** X13: the theme of [App] is always "light" or "dark", starting with
    "light"; the [data-theme] attribute of the document always equals
    it; the toggle button announces the theme a click switches to; a
    click changes the theme and two clicks restore it. *)
Theorem theme_toggles_between_light_and_dark (a : AppState) :
  app_reachable a →
  (theme a = "light" ∨ theme a = "dark") ∧
  data_theme a = theme a ∧
  theme_ariaLabel (themeButton (theme a)) =
    "Switch to " +:+ theme (app_toggle a) +:+ " mode" ∧
  theme (app_toggle a) ≠ theme a ∧
  app_toggle (app_toggle a) = a.
Proof.
  intros Hr.
  assert ((theme a = "light" ∨ theme a = "dark") ∧ data_theme a = theme a) as [Ht Hd].
  { induction Hr as [|a _ [[E | E] _]]; [by split; [left|] | |];
      (split; [|done]); unfold app_toggle; simpl; rewrite E; auto. }
  split; [done|]. split; [done|].
  destruct a as [th dt]. simpl in *. subst dt.
  by destruct Ht as [-> | ->].
Qed.

(** ** The entries of the history are separate objects *)

Lemma ref_effect_refs (prev rs : RefState) :
  history_refs (ref_stepNumber_effect prev rs) = history_refs rs.
Proof.
  unfold ref_stepNumber_effect. destruct (ref_render rs); [|done].
  by destruct (negb _ && _).
Qed.

Lemma js_slice0_sublist {A} (h : list A) (e : Z) : js_slice0 h e `sublist_of` h.
Proof. apply sublist_take. Qed.

Lemma ref_handleClick_separate (rs : RefState) (v : View) (i : Z) (rs' : RefState) :
  NoDup (history_refs rs) →
  (∀ l, l ∈ history_refs rs → is_Some (store rs !! l)) →
  ref_handleClick rs v i = Normal rs' →
  NoDup (history_refs rs') ∧
  (∀ l, l ∈ history_refs rs' → is_Some (store rs' !! l)).
Proof.
  intros Hnd Hall. unfold ref_handleClick.
  set (up := js_slice0 (history_refs rs) (ref_stepNumber rs + 1)).
  assert (up `sublist_of` history_refs rs) as Hsub by apply js_slice0_sublist.
  destruct (winnerObj v); [by intros [= <-]|].
  destruct (get_prop _ i) as [occupied|]; [simpl|done].
  destruct (truthy occupied); [by intros [= <-]|].
  destruct (call_slice _) as [copy|]; [simpl|done].
  intros [= <-]. simpl.
  set (mark := JStr (if ref_xIsNext rs then "X" else "O")).
  assert (∀ l, l ∈ up → l ∈ history_refs rs) as Hin.
  { intros l Hl. by apply (subseteq_take _ (history_refs rs)) in Hl. }
  split.
  - apply NoDup_app. split; [by eapply sublist_NoDup|]. split; [|apply NoDup_singleton].
    intros l Hl ->%list_elem_of_singleton.
    destruct (Hall _ (Hin _ Hl)) as [a Ha]. by rewrite alloc_fresh in Ha.
  - intros l [Hl | ->%list_elem_of_singleton]%elem_of_app.
    + destruct (Hall _ (Hin _ Hl)) as [a Ha]. exists a.
      by apply (objects_unchanged_alloc_write (store rs) copy i mark).
    + eexists. apply (alloc_write_lookup (store rs) copy i mark).
Qed.

Lemma ref_dispatch_separate (rs : RefState) (ev : Event) (rs' : RefState) :
  NoDup (history_refs rs) →
  (∀ l, l ∈ history_refs rs → is_Some (store rs !! l)) →
  ref_dispatch rs ev = Normal rs' →
  NoDup (history_refs rs') ∧
  (∀ l, l ∈ history_refs rs' → is_Some (store rs' !! l)).
Proof.
  intros Hnd Hall. unfold ref_dispatch, ref_handle.
  destruct (ref_render rs) as [v|]; [simpl|done].
  destruct ev as [i| |move]; simpl.
  - destruct (ref_handleClick rs v i) as [rs1|] eqn:Hc; [simpl|done].
    intros [= <-]. rewrite ref_effect_refs, ref_effect_store.
    by eapply ref_handleClick_separate.
  - intros [= <-]. rewrite ref_effect_refs, ref_effect_store. simpl.
    split; [apply NoDup_singleton|].
    intros l ->%list_elem_of_singleton. by rewrite lookup_insert_eq.
  - intros [= <-]. by rewrite ref_effect_refs, ref_effect_store.
Qed.

(** X14: in the store model, whatever events are handled (offered by
    the interface or not), the entries of the history are pairwise
    different array objects, all present in the store: no two entries are
    aliases of one array, because every accepted click appends the copy
    made by [slice]. *)
Theorem history_entries_are_separate_objects (rs : RefState) :
  ref_reachable rs →
  NoDup (history_refs rs) ∧
  (∀ l, l ∈ history_refs rs → is_Some (store rs !! l)) ∧
  (∀ (k k' : nat) l,
     history_refs rs !! k = Some l → history_refs rs !! k' = Some l → k = k').
Proof.
  intros Hr.
  assert (NoDup (history_refs rs) ∧
          (∀ l, l ∈ history_refs rs → is_Some (store rs !! l))) as [Hnd Hall].
  { induction Hr as [|rs ev rs' _ [Hnd Hall] Hd].
    - simpl. split; [apply NoDup_singleton|].
      intros l ->%list_elem_of_singleton. by rewrite lookup_insert_eq.
    - by eapply ref_dispatch_separate. }
  split; [done|]. split; [done|].
  intros k k' l Hk Hk'. by eapply NoDup_lookup.
Qed.

(** ** The game can continue until it is decided *)

Lemma empty_cell_exists (b : jsarray) :
  board9 b → arr_every_not_null b = false → ∃ i, 0 ≤ i ≤ 8 ∧ arr_get b i = JNull.
Proof.
  intros Hb Hf. pose proof Hb as (Hlen & _ & _).
  destruct (decide (Forall (λ v, v ≠ JNull) (elems b))) as [Hall|Hex].
  - assert (arr_every_not_null b = true); [|congruence].
    unfold arr_every_not_null. apply forallb_forall. intros v Hv.
    apply list_elem_of_In in Hv. rewrite Forall_forall in Hall.
    unfold strict_eq. rewrite bool_decide_false; [done | by apply Hall].
  - apply not_Forall_Exists in Hex; [|apply _].
    apply Exists_exists in Hex as (v & Hv & Hnull).
    apply dec_stable in Hnull. subst v.
    apply list_elem_of_lookup in Hv as [n Hn].
    pose proof (lookup_lt_Some _ _ _ Hn). exists (Z.of_nat n).
    split; [lia|]. rewrite arr_get_small by lia. by rewrite Nat2Z.id, Hn.
Qed.

(** X15: the game is never stuck.  In a reachable state whose current
    board is undecided there is an empty square among 0..8, and a click
    on any empty square is accepted and leads to a reachable state one
    step further. *)
Theorem undecided_game_can_continue (s : State) (v : View) (cur : jsarray) :
  reachable s →
  render s = Normal v →
  currentSquares v = Some cur →
  outcome v = Undecided →
  (∃ i, 0 ≤ i ≤ 8 ∧ arr_get cur i = JNull) ∧
  (∀ i, 0 ≤ i ≤ 8 → arr_get cur i = JNull →
     ∃ s', accepted s i s' ∧ reachable s' ∧ stepNumber s' = stepNumber s + 1).
Proof.
  intros Hr Hv Hcur Hund. pose proof (reachable_Inv s Hr) as HI.
  destruct (render_reachable s v cur HI Hv Hcur) as (Hlook & Hb & ->).
  pose proof (undecided_view_of cur Hund) as Hw.
  rewrite outcome_view_of, Hw in Hund. split.
  - apply empty_cell_exists; [done|]. by destruct (arr_every_not_null cur).
  - intros i Hi Hnull. exists (click_result s cur i).
    assert (accepted s i (click_result s cur i)) as Hacc.
    { apply (accepted_iff s cur); [done..|]. by rewrite Hnull. }
    split; [done|]. split; [|done].
    apply (reachable_step s (Click i)); [done | | apply Hacc].
    simpl. apply andb_true_iff. split; apply Z.leb_le; lia.
Qed.

(** ** The reachable states are the played histories *)

Lemma played_from_lookup (k : nat) (b : jsarray) (rest : list jsarray) :
  (∀ (n : nat) x y,
     (b :: rest) !! n = Some x → (b :: rest) !! S n = Some y →
     calculateWinner_loop x lines = None ∧
     ∃ j, placed (mark_of_step (Z.of_nat (k + n))) j x y) →
  played_from k b rest.
Proof.
  revert k b. induction rest as [|b' rest IH]; intros k b H; [done|].
  simpl. destruct (H 0%nat b b') as [Hw Hp]; [done..|].
  rewrite Nat.add_0_r in Hp. split; [done|]. split; [done|].
  apply IH. intros n x y Hx Hy.
  replace (S k + n)%nat with (k + S n)%nat by lia. by apply H.
Qed.

Lemma played_from_snoc (k : nat) (b : jsarray) (rest : list jsarray) (b' : jsarray) :
  played_from k b (rest ++ [b']) →
  played_from k b rest ∧
  ∃ x, (b :: rest) !! length rest = Some x ∧
       calculateWinner_loop x lines = None ∧
       ∃ j, placed (mark_of_step (Z.of_nat (k + length rest))) j x b'.
Proof.
  revert k b. induction rest as [|b1 rest IH]; intros k b; simpl.
  - intros (Hw & Hp & _). split; [done|]. exists b. by rewrite Nat.add_0_r.
  - intros (Hw & Hp & Hrest). destruct (IH (S k) b1 Hrest) as (Hpl & x & Hx & Hwx & Hpx).
    split; [done|]. exists x. split; [done|]. split; [done|].
    by replace (k + S (length rest))%nat with (S k + length rest)%nat by lia.
Qed.

Lemma played_reachable_end (rest : list jsarray) :
  played_from 0 emptyBoard rest →
  reachable (mkState (emptyBoard :: rest) (Z.of_nat (length rest))
                     (Z.even (Z.of_nat (length rest)))).
Proof.
  induction rest as [|b' rest IH] using rev_ind; intros Hpl; [constructor|].
  apply played_from_snoc in Hpl as (Hpl & x & Hx & Hw & j & Hplaced).
  specialize (IH Hpl). set (s0 := mkState _ _ _) in IH.
  pose proof (reachable_Inv s0 IH) as HI.
  assert (history s0 !! Z.to_nat (stepNumber s0) = Some x) as Hcur.
  { unfold s0. cbn [history stepNumber]. by rewrite Nat2Z.id. }
  destruct Hplaced as (Hj & Hnull & Hset). simpl in Hset.
  assert (dispatch s0 (Click j) = Normal (click_result s0 x j)) as Hd
    by by apply click_accepts.
  assert (click_result s0 x j =
          mkState (emptyBoard :: rest ++ [b']) (Z.of_nat (length (rest ++ [b'])))
                  (Z.even (Z.of_nat (length (rest ++ [b']))))) as Heq.
  { unfold click_result, s0. cbn [history stepNumber xIsNext].
    rewrite Nat2Z.id, length_app. simpl length.
    rewrite firstn_all2 by (simpl; lia). f_equal.
    - change (emptyBoard :: rest ++ [b']) with ((emptyBoard :: rest) ++ [b']).
      f_equal. f_equal. rewrite Hset. unfold mark_of_step. done.
    - lia.
    - replace (Z.of_nat (length rest + 1)) with (Z.succ (Z.of_nat (length rest))) by lia.
      by rewrite Z.even_succ, Z.negb_even. }
  rewrite <- Heq. apply (reachable_step s0 (Click j)); [done | | done].
  simpl. apply andb_true_iff. split; apply Z.leb_le; lia.
Qed.

(** X16: the reachable states are exactly the played ones: the history
    starts with the empty board, each further entry is the one before it
    -- which has no winner -- with the mark of its step ("X" at even
    steps, "O" at odd ones) placed on an empty square, the step is an
    index of the history, and the turn flag is the parity of the step. *)
Theorem reachable_iff_well_played (s : State) :
  reachable s ↔ well_played s.
Proof.
  split.
  - intros Hr. pose proof (reachable_Inv s Hr) as [Hstep Hturn Hfirst _ Hmoves].
    split; [|done].
    destruct (history s) as [|b rest] eqn:Hh; [done|].
    injection Hfirst as ->. exists rest. split; [done|].
    apply played_from_lookup. intros n x y Hx Hy. by apply Hmoves.
  - intros ((rest & Hh & Hpl) & Hstep & Hturn).
    pose proof (played_reachable_end rest Hpl) as Hend.
    rewrite Hh in Hstep.
    pose proof (reachable_jump _ (stepNumber s) Hend Hstep) as Hr.
    cbn [history] in Hr. rewrite <- Hh, <- Hturn in Hr. by rewrite State_eta in Hr.
Qed.

(** ** Edge cases of the rendering *)

(** X17: for any history and any step, [MoveHistory] returns one button
    per entry (none for an empty history); button [k] is active exactly
    when [k] equals the step, so an active button exists exactly when
    the step is an index of the history, and no two buttons are
    active. *)
Theorem move_list_active_button {A} (h : list A) (stepNumber : Z) :
  length (MoveHistory h stepNumber) = length h ∧
  (∀ (k : nat) e, MoveHistory h stepNumber !! k = Some e →
     (active e ↔ Z.of_nat k = stepNumber)) ∧
  ((∃ (k : nat) e, MoveHistory h stepNumber !! k = Some e ∧ active e) ↔
   0 ≤ stepNumber < Z.of_nat (length h)) ∧
  (∀ (k k' : nat) e e',
     MoveHistory h stepNumber !! k = Some e → active e →
     MoveHistory h stepNumber !! k' = Some e' → active e' → k = k').
Proof.
  split; [apply length_imap|]. split; [|split].
  - intros k e He. by destruct (MoveHistory_lookup h stepNumber k e He) as (_ & _ & _ & ?).
  - split.
    + intros (k & e & He & Hact).
      destruct (MoveHistory_lookup h stepNumber k e He) as (Hk & _ & _ & Hiff).
      apply Hiff in Hact. lia.
    + intros Hs.
      destruct (lookup_lt_is_Some_2 (MoveHistory h stepNumber) (Z.to_nat stepNumber))
        as [e He].
      { unfold MoveHistory. rewrite length_imap. lia. }
      exists (Z.to_nat stepNumber), e. split; [done|].
      destruct (MoveHistory_lookup h stepNumber _ e He) as (_ & _ & _ & Hiff).
      apply Hiff. lia.
  - intros k k' e e' He Hact He' Hact'.
    destruct (MoveHistory_lookup h stepNumber k e He) as (_ & _ & _ & Hiff).
    destruct (MoveHistory_lookup h stepNumber k' e' He') as (_ & _ & _ & Hiff').
    apply Hiff in Hact. apply Hiff' in Hact'. lia.
Qed.

(** X18: for any state whatever, the component renders exactly when the
    step is an index of the history; otherwise the render throws, and
    then no handler exists: every event faults. *)
Theorem renders_iff_step_in_history (s : State) :
  (completes (TicTacToeGame s) ↔ 0 ≤ stepNumber s < Z.of_nat (length (history s))) ∧
  (completes (render s) ↔ completes (TicTacToeGame s)) ∧
  (¬ 0 ≤ stepNumber s < Z.of_nat (length (history s)) →
     TicTacToeGame s = TypeError ∧ ∀ ev, dispatch s ev = TypeError).
Proof.
  assert (completes (TicTacToeGame s) ↔ completes (render s)) as Hiff.
  { unfold TicTacToeGame, render.
    destruct (js_index (history s) (stepNumber s)) as [cur|]; simpl.
    - split; intros _.
      + destruct (calculateWinner_loop cur lines); by eexists.
      + destruct (calculateWinner_loop cur lines); by eexists.
    - split; by intros [? ?]. }
  split; [by rewrite Hiff, render_completes_iff|]. split; [done|].
  intros Hout.
  assert (render s = TypeError) as Hrender by (apply render_TypeError; lia).
  split.
  - unfold TicTacToeGame. by rewrite Hrender.
  - intros ev. unfold dispatch, handle. by rewrite Hrender.
Qed.

(** ** The further properties at sample positions *)

Lemma reachable_after_01 : reachable state_after_01.
Proof.
  apply (reachable_run initialState [Click 0; Click 1]); [constructor | by vm_compute..].
Qed.

Lemma reachable_top_row_won : reachable state_top_row_won.
Proof.
  apply (reachable_run initialState [Click 0; Click 3; Click 1; Click 4; Click 2]);
    [constructor | by vm_compute..].
Qed.

(** The winner calculation on an array of three "Z". *)
Lemma calculateWinner_sound_witness :
  calculateWinner (Some three_Z) = Normal (Some (mkWinnerObj (JStr "Z") (0, 1, 2))) ∧
  truthy (JStr "Z") = true ∧
  arr_get three_Z 2 = JStr "Z".
Proof.
  assert (calculateWinner (Some three_Z)
          = Normal (Some (mkWinnerObj (JStr "Z") (0, 1, 2)))) as Hw by by vm_compute.
  split; [exact Hw|].
  destruct (proj1 (calculateWinner_sound three_Z) _ Hw) as (_ & Ht & _ & _ & _ & Hc & _).
  split; [exact Ht | exact Hc].
Defined.

(** The counts on the boards after the moves 0, 1, 2. *)
Lemma marks_on_board_count_witness :
  reachable state_after_012 ∧
  (length (history state_after_012) ≤ 10)%nat ∧
  0 ≤ stepNumber state_after_012 ≤ 9.
Proof.
  split; [exact reachable_after_012|].
  exact (proj2 (marks_on_board_count state_after_012 reachable_after_012)).
Defined.

(** The win of "X" on the top row after five moves. *)
Lemma winner_made_last_move_witness :
  reachable state_top_row_won ∧
  render state_top_row_won
    = Normal (view_of (JsArray [JStr "X"; JStr "X"; JStr "X"; JStr "O"; JStr "O";
                                JNull; JNull; JNull; JNull] ∅)) ∧
  5 ≤ stepNumber state_top_row_won ∧
  JStr "X" = JStr (if Z.odd (stepNumber state_top_row_won) then "X" else "O").
Proof.
  split; [exact reachable_top_row_won|].
  assert (render state_top_row_won
          = Normal (view_of (JsArray [JStr "X"; JStr "X"; JStr "X"; JStr "O"; JStr "O";
                                      JNull; JNull; JNull; JNull] ∅))) as Hv by by vm_compute.
  split; [exact Hv|].
  destruct (winner_made_last_move state_top_row_won _ (mkWinnerObj (JStr "X") (0, 1, 2))
              reachable_top_row_won Hv) as (H5 & Hwin & _).
  - by vm_compute.
  - split; [exact H5 | exact Hwin].
Defined.

(** The first entries of the history after the moves 0, 1, 2. *)
Lemma only_last_entry_decided_witness :
  reachable state_after_012 ∧
  history state_after_012 !! 1%nat = Some board_X0 ∧
  (2 < length (history state_after_012))%nat ∧
  evaluate (Some board_X0) = Normal Undecided.
Proof.
  split; [exact reachable_after_012|]. split; [reflexivity|]. split; [simpl; lia|].
  apply (proj1 (only_last_entry_decided state_after_012 reachable_after_012) 1%nat).
  - reflexivity.
  - simpl. lia.
Defined.

(** The board after one move is not full. *)
Lemma draw_only_on_full_board_witness :
  reachable state_after_X0 ∧
  render state_after_X0 = Normal (view_of board_X0) ∧
  (no_empty_cell board_X0 ↔ stepNumber state_after_X0 = 9).
Proof.
  split; [exact reachable_after_X0|].
  assert (render state_after_X0 = Normal (view_of board_X0)) as Hv by by vm_compute.
  split; [exact Hv|].
  exact (proj1 (draw_only_on_full_board state_after_X0 _ board_X0
                  reachable_after_X0 Hv eq_refl)).
Defined.

(** A jump to index 1 after the moves 0, 1, 2. *)
Lemma jump_within_history_witness :
  reachable state_after_012 ∧
  0 ≤ 1 < Z.of_nat (length (history state_after_012)) ∧
  ∃ s', dispatch state_after_012 (Jump 1) = Normal s' ∧
        dispatch s' (Jump (stepNumber state_after_012)) = Normal state_after_012.
Proof.
  split; [exact reachable_after_012|]. split; [simpl; lia|].
  destruct (jump_within_history state_after_012 1 reachable_after_012)
    as (s' & Hd & _ & _ & _ & _ & _ & _ & Hback & _).
  - simpl. lia.
  - exists s'. split; [exact Hd | exact Hback].
Defined.

(** A reset after one move. *)
Lemma reset_restores_initial_state_witness :
  reachable state_after_X0 ∧
  run state_after_X0 [Reset; Reset] = Normal initialState.
Proof.
  split; [exact reachable_after_X0|].
  exact (proj1 (proj2 (reset_restores_initial_state state_after_X0 reachable_after_X0))).
Defined.

(** Undoing and replaying the move on square 1. *)
Lemma undo_then_replay_witness :
  reachable state_after_X0 ∧
  0 ≤ 1 ≤ 8 ∧
  accepted state_after_X0 1 state_after_01 ∧
  ∃ s1, dispatch state_after_01 (Jump (stepNumber state_after_X0)) = Normal s1 ∧
        dispatch s1 (Click 1) = Normal state_after_01.
Proof.
  split; [exact reachable_after_X0|]. split; [lia|].
  assert (accepted state_after_X0 1 state_after_01) as Hacc.
  { split; [by vm_compute|]. intros H. apply (f_equal stepNumber) in H. discriminate. }
  split; [exact Hacc|].
  destruct (undo_then_replay state_after_X0 1 state_after_01 reachable_after_X0)
    as (s1 & Hj & _ & _ & _ & Hc).
  - lia.
  - exact Hacc.
  - exists s1. split; [exact Hj | exact Hc].
Defined.

(** The "X" on square 0 stays through the later entries. *)
Lemma marks_persist_witness :
  reachable state_after_012 ∧
  arr_get board_X0 0 ≠ JNull ∧
  arr_get (JsArray (JStr "X" :: JStr "O" :: JStr "X" :: replicate 6 JNull) ∅) 0
    = arr_get board_X0 0.
Proof.
  split; [exact reachable_after_012|]. split; [by vm_compute|].
  apply (marks_persist state_after_012 1 3 board_X0 _ 0 reachable_after_012).
  - lia.
  - reflexivity.
  - reflexivity.
  - lia.
  - by vm_compute.
Defined.

(** The rendered tree after one move. *)
Lemma rendered_events_never_throw_witness :
  reachable state_after_X0 ∧
  ∃ t, TicTacToeGame state_after_X0 = Normal t ∧
       (Click 4 ∈ tree_events t ↔ offered state_after_X0 (Click 4) = true).
Proof.
  split; [exact reachable_after_X0|].
  destruct (rendered_events_never_throw state_after_X0 reachable_after_X0)
    as (t & Ht & Hoff & _).
  exists t. split; [exact Ht | exact (Hoff (Click 4))].
Defined.

(** The board displayed after one move. *)
Lemma board_as_displayed_witness :
  reachable state_after_X0 ∧
  ∃ t cur, TicTacToeGame state_after_X0 = Normal t ∧
           js_index (history state_after_X0) (stepNumber state_after_X0) = Some cur ∧
           length (tree_board t) = 3%nat.
Proof.
  split; [exact reachable_after_X0|].
  destruct (board_as_displayed state_after_X0 reachable_after_X0)
    as (t & cur & Ht & Hcur & Hlen & _).
  exists t, cur. split; [exact Ht|]. split; [exact Hcur | exact Hlen].
Defined.

(** The move list displayed after one move. *)
Lemma move_list_as_displayed_witness :
  reachable state_after_X0 ∧
  ∃ t, TicTacToeGame state_after_X0 = Normal t ∧
       length (tree_history t) = length (history state_after_X0).
Proof.
  split; [exact reachable_after_X0|].
  destruct (move_list_as_displayed state_after_X0 reachable_after_X0)
    as (t & Ht & Hlen & _).
  exists t. split; [exact Ht | exact Hlen].
Defined.

(** The theme after one click on the toggle. *)
Lemma theme_toggles_between_light_and_dark_witness :
  app_reachable (app_toggle app_initial) ∧
  theme (app_toggle app_initial) = "dark" ∧
  app_toggle (app_toggle (app_toggle app_initial)) = app_toggle app_initial.
Proof.
  assert (app_reachable (app_toggle app_initial)) as Hr
    by (apply app_reachable_toggle, app_reachable_init).
  split; [exact Hr|]. split; [reflexivity|].
  exact (proj2 (proj2 (proj2 (proj2
           (theme_toggles_between_light_and_dark (app_toggle app_initial) Hr))))).
Defined.

Lemma ref_reachable_run (rs : RefState) (evs : list Event) (rs' : RefState) :
  ref_reachable rs → ref_run rs evs = Normal rs' → ref_reachable rs'.
Proof.
  revert rs. induction evs as [|ev evs IH]; intros rs Hr Hrun; simpl in Hrun.
  - by injection Hrun as <-.
  - destruct (ref_dispatch rs ev) as [rs1|] eqn:Hd; [|done]. simpl in Hrun.
    apply (IH rs1); [by eapply ref_reachable_step | done].
Qed.

(** The store after the moves 0, 1, a jump back to step 1 and the move
    5: three entries, three different objects. *)
Lemma history_entries_are_separate_objects_witness :
  ref_run ref_initialState [Click 0; Click 1; Jump 1; Click 5] = Normal ref_state_branched ∧
  ref_reachable ref_state_branched ∧
  history_refs ref_state_branched = [1%positive; 2%positive; 4%positive] ∧
  NoDup (history_refs ref_state_branched) ∧
  (∀ l, l ∈ history_refs ref_state_branched → is_Some (store ref_state_branched !! l)).
Proof.
  assert (ref_run ref_initialState [Click 0; Click 1; Jump 1; Click 5]
          = Normal ref_state_branched) as Hrun by by vm_compute.
  assert (ref_reachable ref_state_branched) as Hr
    by exact (ref_reachable_run _ _ _ ref_reachable_init Hrun).
  split; [exact Hrun|]. split; [exact Hr|]. split; [reflexivity|].
  destruct (history_entries_are_separate_objects ref_state_branched Hr) as (Hnd & Hall & _).
  split; [exact Hnd | exact Hall].
Defined.

(** The game after one move can continue. *)
Lemma undecided_game_can_continue_witness :
  reachable state_after_X0 ∧
  render state_after_X0 = Normal (view_of board_X0) ∧
  outcome (view_of board_X0) = Undecided ∧
  ∃ i, 0 ≤ i ≤ 8 ∧ arr_get board_X0 i = JNull.
Proof.
  split; [exact reachable_after_X0|].
  assert (render state_after_X0 = Normal (view_of board_X0)) as Hv by by vm_compute.
  assert (outcome (view_of board_X0) = Undecided) as Hu by by vm_compute.
  split; [exact Hv|]. split; [exact Hu|].
  exact (proj1 (undecided_game_can_continue state_after_X0 _ board_X0
                  reachable_after_X0 Hv eq_refl Hu)).
Defined.

Lemma well_played_after_01 : well_played state_after_01.
Proof.
  split; [|by vm_compute].
  exists [board_X0; JsArray (JStr "X" :: JStr "O" :: replicate 7 JNull) ∅].
  split; [reflexivity|]. simpl.
  split; [by vm_compute|]. split; [exists 0; by vm_compute|].
  split; [by vm_compute|]. split; [exists 1; by vm_compute|]. done.
Qed.

(** Both directions on played histories: the state after the moves
    0, 1, 2, reached by events, is a played one; the state after the
    moves 0, 1, shown to be a played one from its boards alone, is
    reachable. *)
Lemma reachable_iff_well_played_witness :
  reachable state_after_012 ∧ well_played state_after_012 ∧
  well_played state_after_01 ∧ reachable state_after_01.
Proof.
  split; [exact reachable_after_012|].
  split; [exact (proj1 (reachable_iff_well_played state_after_012) reachable_after_012)|].
  split; [exact well_played_after_01|].
  exact (proj2 (reachable_iff_well_played state_after_01) well_played_after_01).
Defined.

(** The move list of a one-entry history at step 0 and at step 5. *)
Lemma move_list_active_button_witness :
  (∃ (k : nat) e, MoveHistory [emptyBoard] 0 !! k = Some e ∧ active e) ∧
  ¬ (∃ (k : nat) e, MoveHistory [emptyBoard] 5 !! k = Some e ∧ active e).
Proof.
  split.
  - apply (proj1 (proj2 (proj2 (move_list_active_button [emptyBoard] 0)))). simpl. lia.
  - intros H.
    apply (proj1 (proj1 (proj2 (proj2 (move_list_active_button [emptyBoard] 5))))) in H.
    simpl in H. lia.
Defined.

(** A state whose step is past the history. *)
Lemma renders_iff_step_in_history_witness :
  ¬ 0 ≤ 5 < Z.of_nat (length [emptyBoard]) ∧
  TicTacToeGame (mkState [emptyBoard] 5 false) = TypeError.
Proof.
  assert (¬ 0 ≤ 5 < Z.of_nat (length [emptyBoard])) as Hout by (simpl; lia).
  split; [exact Hout|].
  exact (proj1 (proj2 (proj2 (renders_iff_step_in_history (mkState [emptyBoard] 5 false)))
                  Hout)).
Defined.
